(** * Keplerian elements to Cartesian state vectors, and the planet catalogue merge

    A shallow embedding of [k2c-test.py] (the function
    [keplerian_to_cartesian]) and of the merge loop of [planets-api.py].

    Python evaluates an expression left to right and any sub-expression may
    raise; the embedding keeps that: every expression is a computation in
    the exception monad [Exc], and the arithmetic operators are lifted to it
    so that the definitions can be read side by side with the source lines.

    The numeric type of the source is Python's [float].  The embedding is
    written once over an interface [PyFloat] (the operators of the language
    and the functions of the [math] module, with the exceptions they can
    raise).  It is instantiated at the real numbers, where [+], [-], [*] are
    exact, [/] raises [ZeroDivisionError] on a zero divisor and [math.sqrt]
    raises [ValueError] on a negative argument, and at IEEE binary64, the
    format of Python's floats, where the arithmetic rounds, overflows and
    underflows. *)

From Stdlib Require Import ZArith String List Bool Reals Lra Lia.
From Stdlib Require Import Ascii NArith.
From Stdlib Require Floats.
From Equations Require Import Equations.
Import ListNotations.

Set Implicit Arguments.

(** ** Exceptions and the exception monad *)

Inductive exn : Type :=
| NameError (name : string)
| ZeroDivisionError
| ValueError
| OverflowError.

(** The name of the exception's class, as [type(x).__name__] gives it. *)
Definition exc_class (x : exn) : string :=
  match x with
  | NameError _ => "NameError"
  | ZeroDivisionError => "ZeroDivisionError"
  | ValueError => "ValueError"
  | OverflowError => "OverflowError"
  end.

Definition Exc (A : Type) : Type := (exn + A)%type.

Definition ret {A} (x : A) : Exc A := inr x.
Definition raise {A} (x : exn) : Exc A := inl x.

Definition bind {A B} (m : Exc A) (k : A -> Exc B) : Exc B :=
  match m with
  | inl x => inl x
  | inr a => k a
  end.

Declare Scope py_scope.
Delimit Scope py_scope with py.
Open Scope py_scope.

Notation "x <- m ;; k" := (bind m (fun x => k))
  (at level 61, m at next level, right associativity) : py_scope.
Notation "m ;;; k" := (bind m (fun _ => k))
  (at level 61, right associativity) : py_scope.

(** Binary operator that cannot raise, operands evaluated left to right. *)
Definition lift2 {A B C} (op : A -> B -> C) (x : Exc A) (y : Exc B) : Exc C :=
  a <- x ;; b <- y ;; ret (op a b).

(** Binary operator that can raise, operands evaluated left to right. *)
Definition bind2 {A B C} (op : A -> B -> Exc C) (x : Exc A) (y : Exc B) : Exc C :=
  a <- x ;; b <- y ;; op a b.

(** ** Name resolution

    The names bound at module level when the function body runs: the two
    imports and the function itself (lines 1, 2 and 4).  A name that is
    neither a local nor in this list is looked up among the builtins, none
    of which is called [maths], and raises [NameError]. *)
Definition module_globals : list string :=
  ["math"; "np"; "keplerian_to_cartesian"]%string.

Definition load_global (name : string) : Exc unit :=
  if existsb (String.eqb name) module_globals
  then ret tt
  else raise (NameError name).

(** [m.f(...)]: the module name is resolved first, then the call is made. *)
Definition attr_of {A} (module : string) (call : Exc A) : Exc A :=
  load_global module ;;; call.

(** ** The numeric interface *)

Class PyFloat (float : Type) : Type := {
  of_int : Z -> float;                    (* an int operand, converted *)
  fadd : float -> float -> float;
  fsub : float -> float -> float;
  fmul : float -> float -> float;
  fneg : float -> float;
  feqb : float -> float -> bool;          (* [==] *)
  fdiv : float -> float -> Exc float;     (* [/], ZeroDivisionError *)
  fpow : float -> Z -> Exc float;         (* [**] with an int exponent *)
  msqrt : float -> Exc float;             (* math.sqrt, ValueError *)
  msin : float -> Exc float;              (* math.sin *)
  mcos : float -> Exc float;              (* math.cos *)
  matan2 : float -> float -> float        (* math.atan2 *)
}.

(** A numpy array of three floats. *)
Record vec3 (float : Type) : Type := Vec3 { v0 : float; v1 : float; v2 : float }.

Section Kepler.

Context {float : Type} `{PyFloat float}.

Definition val (x : float) : Exc float := ret x.
Local Coercion val : float >-> Exc.

Definition int (n : Z) : Exc float := ret (of_int n).

Local Infix "+." := (lift2 fadd) (at level 50, left associativity) : py_scope.
Local Infix "-." := (lift2 fsub) (at level 50, left associativity) : py_scope.
Local Infix "*." := (lift2 fmul) (at level 40, left associativity) : py_scope.
Local Infix "/." := (bind2 fdiv) (at level 40, left associativity) : py_scope.
Local Notation "x **. n" := (a <- x ;; fpow a n)
  (at level 30, right associativity) : py_scope.
Local Notation "-. x" := (a <- x ;; ret (fneg a)) (at level 35) : py_scope.

Definition math_sqrt (x : Exc float) : Exc float :=
  attr_of "math" (a <- x ;; msqrt a).
Definition math_sin (x : Exc float) : Exc float :=
  attr_of "math" (a <- x ;; msin a).
Definition math_cos (x : Exc float) : Exc float :=
  attr_of "math" (a <- x ;; mcos a).
Definition math_atan2 (y x : Exc float) : Exc float :=
  attr_of "math" (a <- y ;; b <- x ;; ret (matan2 a b)).

(** [maths.sin(x)], as line 71 writes it. *)
Definition maths_sin (x : Exc float) : Exc float :=
  attr_of "maths" (a <- x ;; msin a).

(** [np.array([x, y, z])] *)
Definition np_array (x y z : Exc float) : Exc (vec3 float) :=
  attr_of "np" (a <- x ;; b <- y ;; c <- z ;; ret (Vec3 a b c)).

(** [s * v] for a float [s] and an array [v] *)
Definition scale (s : Exc float) (v : Exc (vec3 float)) : Exc (vec3 float) :=
  lift2 (fun k u => Vec3 (fmul k (v0 u)) (fmul k (v1 u)) (fmul k (v2 u))) s v.

(** *** Lines 36-43: the mean anomaly at [t] *)
Definition mean_anomaly (a t0 t M0 mu : float) : Exc float :=
  if feqb t t0 then
    ret M0
  else
    dt <- int 86400 *. (t -. t0) ;;
    M0 +. dt *. math_sqrt (mu /. a **. 3).

(** *** Lines 47-57: Newton-Raphson on Kepler's equation *)

(** Line 50 and line 55: [F = E - e * math.sin(E) - Mt] *)
Definition residual (e Mt E : float) : Exc float :=
  E -. e *. math_sin E -. Mt.

(** Line 54: [E - F / (1 - e * math.cos(E))] *)
Definition newton_advance (e E F : float) : Exc float :=
  E -. F /. (int 1 -. e *. math_cos E).

(** Lines 54-55, the two assignments of the loop body. *)
Definition newton_step (e Mt E F : float) : Exc (float * float) :=
  E <- newton_advance e E F ;;
  F <- residual e Mt E ;;
  ret (E, F).

(** The loop body on the pair [(E, F)]. *)
Definition step_pair (e Mt : float) (p : float * float) : Exc (float * float) :=
  newton_step e Mt (fst p) (snd p).

(** The loop variables when the loop is left. *)
Record solver_state : Type := Solver { s_i : Z; s_E : float; s_F : float }.

(** Lines 53-57: [while i < solveIterations: ...; i += 1] *)
Equations? newton_while (e Mt : float) (solveIterations i : Z) (E F : float)
  : Exc solver_state by wf (Z.to_nat (solveIterations - i)) lt :=
  newton_while e Mt solveIterations i E F with Z_lt_dec i solveIterations := {
    | left _ =>
        match newton_step e Mt E F with
        | inl x => inl x
        | inr (E', F') => newton_while e Mt solveIterations (i + 1) E' F'
        end
    | right _ => ret (Solver i E F) }.
Proof. lia. Qed.

(** Lines 47-57. *)
Definition solve_kepler (e Mt : float) : Exc solver_state :=
  let solveIterations := 30%Z in
  let i := 0%Z in
  let E := Mt in
  F <- residual e Mt E ;;
  newton_while e Mt solveIterations i E F.

(** The solver as the specification words it: starting from [E = Mt], the
    update [E <- E - (E - e*sin(E) - Mt) / (1 - e*cos(E))] applied a fixed
    number of times.  [newton_update] and [iterM] are the specification's
    side of the comparison with [solve_kepler]. *)
Definition newton_update (e Mt E : float) : Exc float :=
  E -. (E -. e *. math_sin E -. Mt) /. (int 1 -. e *. math_cos E).

Fixpoint iterM {A} (n : nat) (f : A -> Exc A) (x : A) : Exc A :=
  match n with
  | O => ret x
  | S n' => y <- f x ;; iterM n' f y
  end.

(** *** Lines 60-77: true anomaly and the state in the orbital frame *)

(** Lines 60-63. *)
Definition true_anomaly (e E : float) : Exc float :=
  int 2 *. math_atan2
    (math_sqrt (int 1 +. e) *. math_sin (E /. int 2))
    (math_sqrt (int 1 -. e) *. math_cos (E /. int 2)).

(** Line 66. *)
Definition orbital_radius (a e E : float) : Exc float :=
  a *. (int 1 -. e *. math_cos E).

(** Line 71. *)
Definition orbital_position (rc nu : float) : Exc (vec3 float) :=
  scale rc (np_array (math_cos nu) (maths_sin nu) (int 0)).

(** Lines 75-77. *)
Definition orbital_velocity (a e mu rc E : float) : Exc (vec3 float) :=
  scale (math_sqrt (mu *. a) /. rc)
        (np_array (-. math_sin E)
                  (math_sqrt (int 1 -. e *. e) *. math_cos E)
                  (int 0)).

(** *** Lines 80-94: transformation to the inertial frame

    At this point the local [i] is the loop counter, an int. *)

(** Lines 80-86. *)
Definition inertial_position (w omega : float) (i : Z) (o : vec3 float)
  : Exc (vec3 float) :=
  np_array
    (v0 o *. (math_cos w *. math_cos omega -. math_sin w *. math_cos (int i) *. math_sin omega)
       -. v1 o *. (math_sin w *. math_cos omega +. math_cos w *. math_cos (int i) *. math_sin omega))
    (v0 o *. (math_cos w *. math_sin omega +. math_sin w *. math_cos (int i) *. math_cos omega)
       -. v1 o *. (math_cos w *. math_cos (int i) *. math_cos omega -. math_sin w *. math_sin omega))
    (v0 o *. (math_sin w *. math_sin (int i)) +. v1 o *. (math_cos w *. math_sin (int i))).

(** Lines 88-94. *)
Definition inertial_velocity (w omega : float) (i : Z) (odot : vec3 float)
  : Exc (vec3 float) :=
  np_array
    (v0 odot *. (math_cos w *. math_cos omega -. math_sin w *. math_cos (int i) *. math_sin omega)
       -. v1 odot *. (math_sin w *. math_cos omega +. math_cos w *. math_cos (int i) *. math_sin omega))
    (v0 odot *. (math_cos w *. math_sin omega +. math_sin w *. math_cos (int i) *. math_cos omega)
       -. v1 odot *. (math_cos w *. math_cos (int i) *. math_cos omega -. math_sin w *. math_sin omega))
    (v0 odot *. (math_sin w *. math_sin (int i)) +. v1 odot *. (math_cos w *. math_sin (int i))).

(** *** Lines 4-96: the function

    The parameter [i] is rebound by line 48 before it is read; from there on
    [i] names the loop counter. *)
Definition keplerian_to_cartesian (a e w omega i t0 t M0 mu : float)
  : Exc (vec3 float * vec3 float) :=
  Mt <- mean_anomaly a t0 t M0 mu ;;
  s <- solve_kepler e Mt ;;
  let i := s_i s in
  let E := s_E s in
  nu <- true_anomaly e E ;;
  rc <- orbital_radius a e E ;;
  o <- orbital_position rc nu ;;
  odot <- orbital_velocity a e mu rc E ;;
  r <- inertial_position w omega i o ;;
  rdot <- inertial_velocity w omega i odot ;;
  ret (r, rdot).

End Kepler.

(** ** Where an exception comes from

    [raising P m]: an exception that [m] raises satisfies [P].
    [raises_only P]: the exceptions of the instance's five operations that
    can raise ([**], [/], [math.sqrt], [math.sin], [math.cos]) satisfy [P]. *)
Definition raising {A : Type} (P : exn -> Prop) (m : Exc A) : Prop :=
  forall x, m = raise x -> P x.

Definition raises_only {float : Type} `{PyFloat float} (P : exn -> Prop) : Prop :=
  (forall x n, raising P (fpow x n)) /\
  (forall x y, raising P (fdiv x y)) /\
  (forall x, raising P (msqrt x)) /\
  (forall x, raising P (msin x)) /\
  (forall x, raising P (mcos x)).

(** ** The instance at the real numbers *)

Open Scope R_scope.

Definition Req_bool (x y : R) : bool := if Req_dec_T x y then true else false.

(** [math.atan2(y, x)]: the angle of the point [(x, y)], in [(-PI, PI]]. *)
Definition atan2 (y x : R) : R :=
  if Rlt_dec 0 x then atan (y / x)
  else if Rlt_dec x 0 then
    if Rle_dec 0 y then atan (y / x) + PI else atan (y / x) - PI
  else if Rlt_dec 0 y then PI / 2
  else if Rlt_dec y 0 then - (PI / 2)
  else 0.

#[export] Instance PyFloat_R : PyFloat R := {
  of_int := IZR;
  fadd := Rplus;
  fsub := Rminus;
  fmul := Rmult;
  fneg := Ropp;
  feqb := Req_bool;
  fdiv x y := if Req_dec_T y 0 then raise ZeroDivisionError else ret (x / y);
  fpow x n :=
    if (n <? 0)%Z then
      if Req_dec_T x 0 then raise ZeroDivisionError else ret (powerRZ x n)
    else ret (powerRZ x n);
  msqrt x := if Rlt_dec x 0 then raise ValueError else ret (sqrt x);
  msin x := ret (sin x);
  mcos x := ret (cos x);
  matan2 := atan2
}.

(** ** The catalogue merge of [planets-api.py], lines 64-78 *)

Module PlanetsApi.

Open Scope string_scope.

(** A Python [dict] with string keys: the items in insertion order.  The
    keys of a dict are pairwise distinct, see [keys]. *)
Definition dict (A : Type) : Type := list (string * A).

Definition keys {A} (d : dict A) : list string := map fst d.

(** [list(d.values())] *)
Definition values {A} (d : dict A) : list A := map snd d.

(** [d[k]], [None] where Python raises [KeyError] *)
Fixpoint getitem {A} (k : string) (d : dict A) : option A :=
  match d with
  | [] => None
  | (k', v) :: d' => if String.eqb k k' then Some v else getitem k d'
  end.

(** [k in d] *)
Definition contains {A} (k : string) (d : dict A) : bool :=
  existsb (String.eqb k) (keys d).

(** [d[k] = v]: an existing key keeps its place, a new one goes last. *)
Fixpoint setitem {A} (k : string) (v : A) (d : dict A) : dict A :=
  match d with
  | [] => [(k, v)]
  | (k', v') :: d' =>
      if String.eqb k k' then (k', v) :: d' else (k', v') :: setitem k v d'
  end.

(** [d.update(other)] *)
Definition update {A} (d other : dict A) : dict A :=
  fold_left (fun acc kv => setitem (fst kv) (snd kv) acc) other d.

(** The object stored under [k] mutated in place by [f]. *)
Fixpoint modify {A} (k : string) (f : A -> A) (d : dict A) : dict A :=
  match d with
  | [] => []
  | (k', v) :: d' =>
      if String.eqb k k' then (k', f v) :: d' else (k', v) :: modify k f d'
  end.

Section Merge.

(** The values of a body's fields (strings, numbers, tables), and how an
    f-string prints one. *)
Variable value : Type.
Variable format : value -> string.

Definition body : Type := dict value.

(** Lines 65-69, one pass through the loop body. *)
Definition merge_step (bodies_prev : dict body) (item : string * body)
  : dict body :=
  let (key, b) := item in
  if negb (contains key bodies_prev) then
    setitem key b bodies_prev
  else
    modify key (fun stored => update stored b) bodies_prev.

(** Lines 64-69: [for key, body in bodies.items(): ...] *)
Definition merge (bodies bodies_prev : dict body) : dict body :=
  fold_left merge_step bodies bodies_prev.

Definition colour_warning (name : value) : string :=
  "WARNING: " ++ format name ++ " has not been designated a colour".

Definition parent_warning (name : value) : string :=
  "WARNING: " ++ format name ++ " has no parent".

(** Lines 74-78, the lines printed for one body. *)
Definition warnings (b : body) : list string :=
  (if negb (contains "colour" b) && contains "name" b then
     match getitem "name" b with
     | Some name => [colour_warning name]
     | None => []
     end
   else [])
  ++
  (if negb (contains "parent" b) && contains "name" b then
     match getitem "name" b with
     | Some name => [parent_warning name]
     | None => []
     end
   else []).

(** Lines 64-78: the merged list of bodies and the lines printed. *)
Definition merge_and_report (bodies bodies_prev : dict body)
  : list body * list string :=
  let bodies_prev := merge bodies bodies_prev in
  let bodies := values bodies_prev in
  (bodies, flat_map warnings bodies).

End Merge.

End PlanetsApi.

(** ** [snake_case] and [convert_body] of [planets-api.py], lines 12-42 *)

Module PlanetsConvert.

Import PlanetsApi.
Open Scope string_scope.

(** The exceptions the conversion can raise. *)
Inductive error : Type :=
| TypeError
| KeyError (key : string)
| OverflowError.

Definition result (A : Type) : Type := (error + A)%type.

Definition ok {A} (x : A) : result A := inr x.
Definition fail {A} (x : error) : result A := inl x.

Definition and_then {A B} (m : result A) (k : A -> result B) : result B :=
  match m with
  | inl x => inl x
  | inr a => k a
  end.

Declare Scope conv_scope.
Delimit Scope conv_scope with conv.
Open Scope conv_scope.

Notation "x <-- m ;; k" := (and_then m (fun x => k))
  (at level 61, m at next level, right associativity) : conv_scope.

(** *** Characters and strings

    A character is a code point below 256 (Latin-1); the three functions
    below are Python's for these code points. *)

(** [c.isupper()] for one character: [A]-[Z] and the capital letters
    U+00C0-U+00D6, U+00D8-U+00DE. *)
Definition isupper_char (c : ascii) : bool :=
  let n := N_of_ascii c in
  ((65 <=? n) && (n <=? 90) || (192 <=? n) && (n <=? 214)
   || (216 <=? n) && (n <=? 222))%N.

(** [c.islower()] for one character: [a]-[z], U+00AA, U+00B5, U+00BA and
    the small letters U+00DF-U+00F6, U+00F8-U+00FF. *)
Definition islower_char (c : ascii) : bool :=
  let n := N_of_ascii c in
  ((97 <=? n) && (n <=? 122) || (n =? 170) || (n =? 181) || (n =? 186)
   || (223 <=? n) && (n <=? 246) || (248 <=? n) && (n <=? 255))%N.

(** [c.lower()] for one character. *)
Definition lower_char (c : ascii) : ascii :=
  if isupper_char c then ascii_of_N (N_of_ascii c + 32) else c.

(** The characters of a string, as [for c in s] yields them. *)
Fixpoint chars (s : string) : list ascii :=
  match s with
  | EmptyString => []
  | String c s' => c :: chars s'
  end.

(** [s.isupper()]: no lowercase character and at least one uppercase. *)
Definition isupper (s : string) : bool :=
  negb (existsb islower_char (chars s)) && existsb isupper_char (chars s).

(** [s.lower()] *)
Fixpoint lower (s : string) : string :=
  match s with
  | EmptyString => EmptyString
  | String c s' => String (lower_char c) (lower s')
  end.

(** [string.whitespace]: space, tab, linefeed, return, vertical tab,
    formfeed. *)
Definition whitespace : string :=
  String (ascii_of_N 32) (String (ascii_of_N 9) (String (ascii_of_N 10)
    (String (ascii_of_N 13) (String (ascii_of_N 11) (String (ascii_of_N 12)
      EmptyString))))).

(** [p in s] for strings: [p] occurs in [s]. *)
Fixpoint occurs_in (p s : string) : bool :=
  prefix p s ||
  match s with
  | EmptyString => false
  | String _ s' => occurs_in p s'
  end.

(** *** Line 13: [snake_case] *)

(** The lambda of line 13. *)
Definition snake_step (x y : string) : string :=
  (x ++ (if isupper y then "_" else "")) ++ (if occurs_in y whitespace then "" else y).

(** [reduce(lambda x, y: ..., items).lower()] for the items an iterable of
    strings yields; [reduce] of an empty iterable raises [TypeError]. *)
Definition snake_case_items (items : list string) : result string :=
  match items with
  | [] => fail TypeError
  | x :: rest => ok (lower (fold_left snake_step rest x))
  end.

(** [snake_case(str)] for a string: the items are its characters. *)
Definition snake_case (str : string) : result string :=
  snake_case_items (map (fun c => String c EmptyString) (chars str)).

(** What one character after the first contributes before [lower]: an
    underscore if it is uppercase, and itself unless it is whitespace. *)
Definition snake_char (c : ascii) : string :=
  (if isupper_char c then "_" else "")
  ++ (if occurs_in (String c EmptyString) whitespace then "" else String c EmptyString).

Fixpoint snake_tail (s : string) : string :=
  match s with
  | EmptyString => EmptyString
  | String c s' => snake_char c ++ snake_tail s'
  end.

(** *** Dict operations the conversion needs beside those of the merge *)

(** [d[k]], raising [KeyError] *)
Definition subscript {A} (k : string) (d : dict A) : result A :=
  match getitem k d with
  | Some v => ok v
  | None => fail (KeyError k)
  end.

Fixpoint remove {A} (k : string) (d : dict A) : dict A :=
  match d with
  | [] => []
  | (k', v) :: d' => if String.eqb k k' then d' else (k', v) :: remove k d'
  end.

(** [del d[k]] *)
Definition delitem {A} (k : string) (d : dict A) : result (dict A) :=
  if contains k d then ok (remove k d) else fail (KeyError k).

Section Convert.

(** The numbers of the answer (ints and floats), and
    [value * (10 ** exponent)] on them, which can overflow. *)
Variable num : Type.
Variable times_pow10 : num -> num -> result num.

(** The values a body of the answer holds: strings, numbers, the tables
    of [vol] and [mass], and [null]. *)
Inductive field : Type :=
| FStr (s : string)
| FNum (x : num)
| FTable (t : dict num)
| FNull.

(** [snake_case(v)]: a string yields its characters, a table its keys; a
    number and [None] are not iterable. *)
Definition snake_case_field (v : field) : result string :=
  match v with
  | FStr s => snake_case s
  | FTable t => snake_case_items (keys t)
  | FNum _ | FNull => fail TypeError
  end.

(** [v[k]] for a string key: only a table can be subscripted by it. *)
Definition table_subscript (v : field) (k : string) : result num :=
  match v with
  | FTable t => subscript k t
  | FStr _ | FNum _ | FNull => fail TypeError
  end.

(** [v == s] for a string literal [s] *)
Definition is_str (v : field) (s : string) : bool :=
  match v with
  | FStr s' => String.eqb s' s
  | _ => false
  end.

(** Line 17: [{ snake_case(key): value for key, value in body.items() }] *)
Definition rename_keys (body : dict field) : result (dict field) :=
  fold_left
    (fun acc kv => d <-- acc ;; k <-- snake_case (fst kv) ;; ok (setitem k (snd kv) d))
    body (ok []).

(** Lines 19-21. *)
Definition set_identity (body : dict field) : result (dict field) :=
  english_name <-- subscript "english_name" body ;;
  identifier <-- snake_case_field english_name ;;
  let body := setitem "identifier" (FStr identifier) body in
  english_name <-- subscript "english_name" body ;;
  let body := setitem "name" english_name body in
  delitem "english_name" body.

(** Line 23. *)
Definition set_body_type (body : dict field) : result (dict field) :=
  body_type <-- subscript "body_type" body ;;
  body_type <-- snake_case_field body_type ;;
  ok (setitem "body_type" (FStr body_type) body).

(** Lines 25-26. *)
Definition set_parent (body : dict field) : result (dict field) :=
  identifier <-- subscript "identifier" body ;;
  if negb (is_str identifier "sun") then
    body_type <-- subscript "body_type" body ;;
    if is_str body_type "planet" || is_str body_type "dwarf_planet" then
      ok (setitem "parent" (FStr "sun") body)
    else ok body
  else ok body.

(** [body[k][value_key] * (10 ** body[k][exponent_key])] *)
Definition scaled (body : dict field) (k value_key exponent_key : string)
  : result num :=
  table <-- subscript k body ;;
  value <-- table_subscript table value_key ;;
  table <-- subscript k body ;;
  exponent <-- table_subscript table exponent_key ;;
  times_pow10 value exponent.

(** Lines 28-29. *)
Definition set_volume (body : dict field) : result (dict field) :=
  volume <-- scaled body "vol" "volValue" "volExponent" ;;
  let body := setitem "volume" (FNum volume) body in
  delitem "vol" body.

(** Line 31. *)
Definition set_mass (body : dict field) : result (dict field) :=
  mass <-- scaled body "mass" "massValue" "massExponent" ;;
  ok (setitem "mass" (FNum mass) body).

(** Lines 33-42: [identifier] and [name] first, then the other items. *)
Definition reorder (body : dict field) : result (dict field) :=
  identifier <-- subscript "identifier" body ;;
  name <-- subscript "name" body ;;
  let newBody := setitem "name" name (setitem "identifier" identifier []) in
  ok (fold_left
        (fun newBody kv =>
           if negb (contains (fst kv) newBody)
           then setitem (fst kv) (snd kv) newBody
           else newBody)
        body newBody).

(** Lines 15-42. *)
Definition convert_body (body : dict field) : result (dict field) :=
  body <-- rename_keys body ;;
  body <-- set_identity body ;;
  body <-- set_body_type body ;;
  body <-- set_parent body ;;
  body <-- set_volume body ;;
  body <-- set_mass body ;;
  reorder body.

End Convert.

Arguments FStr {num} s.
Arguments FNull {num}.

End PlanetsConvert.

(** ** The instance at IEEE binary64

    Python's [float] is the binary64 format; [+], [-], [*], [/] and
    [math.sqrt] round to nearest, ties to even, as the primitive floats do.
    The sine, cosine and arc tangent of the C library are taken as given
    ([libm]).  A power [x ** n] is the exact power rounded once; the C
    library's [pow] may differ from it in the last place, but a power far
    out of range overflows, or underflows to zero, for both. *)

Module Binary64.

Import PrimFloat FloatOps SpecFloat.

Record libm : Type := Libm {
  c_sin : float -> float;
  c_cos : float -> float;
  c_atan2 : float -> float -> float
}.

(** An int operand converted to float (the int literals of the source). *)
Definition of_Z (z : Z) : float := SF2Prim (binary_normalize prec emax z 0 false).

Definition signed (negative : bool) (x : float) : float :=
  if negative then PrimFloat.opp x else x.

(** [x ** n] for an int [n]: [1.0] for [n = 0]; for a finite non-zero [x]
    the power of [|x|] rounded once ([n > 0], the case of the source) or its
    reciprocal ([n < 0]), [OverflowError] when that is infinite; a zero
    result of underflow is returned as it is. *)
Definition pow_int (x : float) (n : Z) : Exc float :=
  if (n =? 0)%Z then ret (of_Z 1)
  else
    let odd := Z.odd n in
    match Prim2SF x with
    | S754_nan => ret nan
    | S754_infinity s =>
        ret (signed (s && odd) (if (0 <? n)%Z then infinity else zero))
    | S754_zero s =>
        if (n <? 0)%Z then raise ZeroDivisionError
        else ret (signed (s && odd) zero)
    | S754_finite s m e =>
        let p := SF2Prim (binary_normalize prec emax (Z.pos m ^ Z.abs n)
                            (Z.abs n * e) false) in
        let r := if (0 <? n)%Z then p else PrimFloat.div (of_Z 1) p in
        if is_infinity r then raise OverflowError
        else ret (signed (s && odd) r)
    end.

(** [x / y]: a zero divisor, of either sign, raises. *)
Definition div (x y : float) : Exc float :=
  if PrimFloat.eqb y zero then raise ZeroDivisionError
  else ret (PrimFloat.div x y).

(** [math.sqrt(x)]: a negative argument raises. *)
Definition py_sqrt (x : float) : Exc float :=
  if PrimFloat.ltb x zero then raise ValueError else ret (PrimFloat.sqrt x).

(** [math.sin(x)], [math.cos(x)]: a result that is not a number for an
    argument that is one, or infinite for a finite argument, raises
    [ValueError]. *)
Definition checked (f : float -> float) (x : float) : Exc float :=
  let r := f x in
  if is_nan r && negb (is_nan x) then raise ValueError
  else if is_infinity r && negb (is_infinity x) && negb (is_nan x)
       then raise ValueError
  else ret r.

Definition PyFloat_binary64 (L : libm) : PyFloat float := {|
  of_int := of_Z;
  fadd := PrimFloat.add;
  fsub := PrimFloat.sub;
  fmul := PrimFloat.mul;
  fneg := PrimFloat.opp;
  feqb := PrimFloat.eqb;
  fdiv := div;
  fpow := pow_int;
  msqrt := py_sqrt;
  msin := checked (c_sin L);
  mcos := checked (c_cos L);
  matan2 := c_atan2 L
|}.

End Binary64.

(** ** The numbers of the answer, and [value * (10 ** exponent)] of lines 28 and 31 *)

Module PlanetsNumbers.

Import PlanetsConvert.

(** A number as [json] reads it: an [int] or a [float]. *)
Inductive number : Type :=
| Int (z : Z)
| Float (x : PrimFloat.float).

(** The int operand of a mixed operation, converted: the nearest float,
    [OverflowError] when the int is too large to have one. *)
Definition float_of_int (z : Z) : result PrimFloat.float :=
  let x := Binary64.of_Z z in
  if PrimFloat.is_infinity x then fail OverflowError else ok x.

Section Pow.

(** [10 ** exponent] for an exponent that is a negative int or a float: the
    power is a float, computed by the C library. *)
Variable pow10_float : number -> result PrimFloat.float.

(** [10 ** exponent]: an int for an int exponent that is not negative. *)
Definition pow10 (exponent : number) : result number :=
  match exponent with
  | Int e =>
      if (0 <=? e)%Z then ok (Int (10 ^ e))
      else x <-- pow10_float exponent ;; ok (Float x)
  | Float _ => x <-- pow10_float exponent ;; ok (Float x)
  end.

(** [x * y]: exact on two ints; with a float operand the other is converted
    and the product is rounded. *)
Definition mul (x y : number) : result number :=
  match x, y with
  | Int a, Int b => ok (Int (a * b))
  | Int a, Float b => a' <-- float_of_int a ;; ok (Float (PrimFloat.mul a' b))
  | Float a, Int b => b' <-- float_of_int b ;; ok (Float (PrimFloat.mul a b'))
  | Float a, Float b => ok (Float (PrimFloat.mul a b))
  end.

(** [value * (10 ** exponent)] *)
Definition times_pow10 (value exponent : number) : result number :=
  p <-- pow10 exponent ;; mul value p.

End Pow.

End PlanetsNumbers.

(** * Properties *)

(** ** The exception monad *)

Lemma bind_ext {A B} (m : Exc A) (f g : A -> Exc B) :
  (forall a, f a = g a) -> bind m f = bind m g.
Proof. intros Hfg. destruct m as [x|a]; simpl; [reflexivity | apply Hfg]. Qed.

Lemma attr_of_math {A} (c : Exc A) : attr_of "math" c = c.
Proof. reflexivity. Qed.

Lemma attr_of_maths {A} (c : Exc A) : attr_of "maths" c = raise (NameError "maths").
Proof. reflexivity. Qed.

(** ** Facts that hold for every numeric instance *)

Section KeplerFacts.

Context {float : Type} `{PyFloat float}.

(** The specification's update is line 50/55 followed by line 54. *)
Lemma newton_update_unfold (e Mt E : float) :
  newton_update e Mt E = (F <- residual e Mt E ;; newton_advance e E F).
Proof.
  unfold newton_update, newton_advance, residual, lift2, bind2, math_sin, math_cos.
  rewrite !attr_of_math. cbn.
  destruct (msin E); cbn; [reflexivity|].
  destruct (mcos E); cbn; reflexivity.
Qed.

(** The loop keeps the residual of the current [E] in [F]; recomputing it at
    the start of each update instead gives the same computation. *)
Lemma iter_step_update {B} (e Mt : float) (n : nat) :
  forall (E : float) (k : float * float -> Exc B),
    (F <- residual e Mt E ;; p <- iterM n (step_pair e Mt) (E, F) ;; k p)
    = (E' <- iterM n (newton_update e Mt) E ;; F' <- residual e Mt E' ;; k (E', F')).
Proof.
  induction n as [|n IH]; intros E k; simpl iterM.
  - reflexivity.
  - rewrite newton_update_unfold.
    destruct (residual e Mt E) as [x|F]; [reflexivity|]. simpl bind.
    unfold step_pair at 1, newton_step. simpl fst; simpl snd.
    destruct (newton_advance e E F) as [x|E1]; [reflexivity|]. simpl bind.
    rewrite <- IH.
    destruct (residual e Mt E1) as [x|F1]; reflexivity.
Qed.

(** The while loop started at [i <= N] runs its body [N - i] times and
    leaves with [i = N]. *)
Lemma newton_while_iter (e Mt : float) (N : Z) (n : nat) :
  forall (i : Z) (E F : float), n = Z.to_nat (N - i) -> (i <= N)%Z ->
    newton_while e Mt N i E F
    = (p <- iterM n (step_pair e Mt) (E, F) ;; ret (Solver N (fst p) (snd p))).
Proof.
  induction n as [|n IH]; intros i E F Hn Hi; simp newton_while.
  - destruct (Z_lt_dec i N) as [Hlt|Hge]; [lia|]. simpl.
    replace i with N by lia. reflexivity.
  - destruct (Z_lt_dec i N) as [Hlt|Hge]; [|lia]. simpl.
    unfold step_pair at 1. simpl fst; simpl snd.
    destruct (newton_step e Mt E F) as [x|[E' F']]; [reflexivity|]. simpl bind.
    apply IH; lia.
Qed.

Lemma solve_kepler_iter (e Mt : float) :
  solve_kepler e Mt
  = (E <- iterM 30 (newton_update e Mt) Mt ;;
     F <- residual e Mt E ;;
     ret (Solver 30 E F)).
Proof.
  unfold solve_kepler. cbv zeta.
  transitivity
    (F <- residual e Mt Mt ;;
     p <- iterM 30 (step_pair e Mt) (Mt, F) ;; ret (Solver 30 (fst p) (snd p))).
  - apply bind_ext. intros F. apply newton_while_iter; [reflexivity | lia].
  - apply (iter_step_update e Mt 30 Mt (fun p => ret (Solver 30 (fst p) (snd p)))).
Qed.

Lemma solve_kepler_counter (e Mt : float) (s : solver_state) :
  solve_kepler e Mt = ret s -> s_i s = 30%Z.
Proof.
  rewrite solve_kepler_iter.
  destruct (iterM 30 (newton_update e Mt) Mt) as [x|E]; simpl; [discriminate|].
  destruct (residual e Mt E) as [x|F]; simpl; [discriminate|].
  intros Hs. injection Hs as <-. reflexivity.
Qed.

(** Line 71 never yields a value: after [math.cos(nu)] the name [maths] is
    looked up and is not bound. *)
Lemma orbital_position_raises (rc nu : float) :
  exists x, orbital_position rc nu = raise x.
Proof.
  unfold orbital_position, scale, lift2, np_array, math_cos.
  cbn. destruct (mcos nu) as [x|c]; cbn; eauto.
Qed.

Lemma keplerian_to_cartesian_raises (a e w omega i t0 t M0 mu : float) :
  exists x, keplerian_to_cartesian a e w omega i t0 t M0 mu = raise x.
Proof.
  unfold keplerian_to_cartesian.
  destruct (mean_anomaly a t0 t M0 mu) as [x|Mt]; simpl; [eauto|].
  destruct (solve_kepler e Mt) as [x|s]; simpl; [eauto|].
  destruct (true_anomaly e (s_E s)) as [x|nu]; simpl; [eauto|].
  destruct (orbital_radius a e (s_E s)) as [x|rc]; simpl; [eauto|].
  destruct (orbital_position_raises rc nu) as [x ->]. simpl. eauto.
Qed.

End KeplerFacts.

(** ** Where the exceptions of the call come from *)

Section RaisedExceptions.

Context {float : Type} `{PyFloat float}.

Variable P : exn -> Prop.

Lemma raising_ret {A} (x : A) : raising P (ret x).
Proof. intros y Hy. discriminate Hy. Qed.

Lemma raising_bind {A B} (m : Exc A) (k : A -> Exc B) :
  raising P m -> (forall a, raising P (k a)) -> raising P (bind m k).
Proof.
  intros Hm Hk x. destruct m as [y|a]; simpl.
  - intros Hx. apply Hm. injection Hx as ->. reflexivity.
  - apply Hk.
Qed.

Lemma raising_lift2 {A B C} (op : A -> B -> C) (x : Exc A) (y : Exc B) :
  raising P x -> raising P y -> raising P (lift2 op x y).
Proof.
  intros Hx Hy. unfold lift2.
  apply raising_bind; [exact Hx | intros a].
  apply raising_bind; [exact Hy | intros b]. apply raising_ret.
Qed.

Lemma raising_bind2 {A B C} (op : A -> B -> Exc C) (x : Exc A) (y : Exc B) :
  raising P x -> raising P y -> (forall a b, raising P (op a b)) ->
  raising P (bind2 op x y).
Proof.
  intros Hx Hy Hop. unfold bind2.
  apply raising_bind; [exact Hx | intros a].
  apply raising_bind; [exact Hy | intros b]. apply Hop.
Qed.

Hypothesis HP : raises_only P.

Lemma raising_fpow (x : float) (n : Z) : raising P (fpow x n).
Proof. apply HP. Qed.

Lemma raising_fdiv (x y : float) : raising P (fdiv x y).
Proof. apply HP. Qed.

Lemma raising_math_sqrt (x : Exc float) : raising P x -> raising P (math_sqrt x).
Proof.
  intros Hx. unfold math_sqrt. rewrite attr_of_math.
  apply raising_bind; [exact Hx | intros a]. apply HP.
Qed.

Lemma raising_math_sin (x : Exc float) : raising P x -> raising P (math_sin x).
Proof.
  intros Hx. unfold math_sin. rewrite attr_of_math.
  apply raising_bind; [exact Hx | intros a]. apply HP.
Qed.

Lemma raising_math_cos (x : Exc float) : raising P x -> raising P (math_cos x).
Proof.
  intros Hx. unfold math_cos. rewrite attr_of_math.
  apply raising_bind; [exact Hx | intros a]. apply HP.
Qed.

Lemma raising_math_atan2 (y x : Exc float) :
  raising P y -> raising P x -> raising P (math_atan2 y x).
Proof.
  intros Hy Hx. unfold math_atan2. rewrite attr_of_math.
  apply raising_bind; [exact Hy | intros a].
  apply raising_bind; [exact Hx | intros b]. apply raising_ret.
Qed.

Ltac raising_step :=
  first
    [ apply raising_ret
    | apply raising_fpow
    | apply raising_fdiv
    | apply raising_math_sqrt
    | apply raising_math_sin
    | apply raising_math_cos
    | apply raising_math_atan2
    | apply raising_lift2
    | apply raising_bind2; [| | intros ? ?]
    | apply raising_bind; [| intros ?] ].

Lemma raising_mean_anomaly (a t0 t M0 mu : float) :
  raising P (mean_anomaly a t0 t M0 mu).
Proof.
  unfold mean_anomaly, int, val. destruct (feqb t t0); repeat raising_step.
Qed.

Lemma raising_residual (e Mt E : float) : raising P (residual e Mt E).
Proof. unfold residual, int, val. repeat raising_step. Qed.

Lemma raising_newton_update (e Mt E : float) : raising P (newton_update e Mt E).
Proof. unfold newton_update, int, val. repeat raising_step. Qed.

Lemma raising_iterM {A} (f : A -> Exc A) (n : nat) :
  (forall x, raising P (f x)) -> forall x, raising P (iterM n f x).
Proof.
  intros Hf. induction n as [|n IH]; intros x; simpl.
  - apply raising_ret.
  - apply raising_bind; [apply Hf | exact IH].
Qed.

Lemma raising_solve_kepler (e Mt : float) : raising P (solve_kepler e Mt).
Proof.
  rewrite solve_kepler_iter.
  apply raising_bind; [apply raising_iterM, raising_newton_update | intros E].
  apply raising_bind; [apply raising_residual | intros F]. apply raising_ret.
Qed.

Lemma raising_true_anomaly (e E : float) : raising P (true_anomaly e E).
Proof. unfold true_anomaly, int, val. repeat raising_step. Qed.

Lemma raising_orbital_radius (a e E : float) : raising P (orbital_radius a e E).
Proof. unfold orbital_radius, int, val. repeat raising_step. Qed.

(** Line 71 raises what [math.cos(nu)] raises, or else the [NameError] of
    [maths]. *)
Lemma orbital_position_raised (rc nu : float) :
  exists x, orbital_position rc nu = raise x /\ (P x \/ x = NameError "maths").
Proof.
  unfold orbital_position, scale, lift2, np_array, math_cos.
  cbn. destruct (mcos nu) as [x|c] eqn:Hc; cbn.
  - exists x. split; [reflexivity | left].
    destruct HP as (_ & _ & _ & _ & Hcos). exact (Hcos nu x Hc).
  - exists (NameError "maths"). split; [reflexivity | right; reflexivity].
Qed.

Lemma keplerian_to_cartesian_raised (a e w omega i t0 t M0 mu : float) :
  exists x, keplerian_to_cartesian a e w omega i t0 t M0 mu = raise x /\
            (P x \/ x = NameError "maths").
Proof.
  unfold keplerian_to_cartesian.
  destruct (mean_anomaly a t0 t M0 mu) as [x|Mt] eqn:Hm; simpl.
  { exists x. split; [reflexivity | left]. exact (raising_mean_anomaly _ _ _ _ _ Hm). }
  destruct (solve_kepler e Mt) as [x|s] eqn:Hs; simpl.
  { exists x. split; [reflexivity | left]. exact (raising_solve_kepler _ _ Hs). }
  destruct (true_anomaly e (s_E s)) as [x|nu] eqn:Hnu; simpl.
  { exists x. split; [reflexivity | left]. exact (raising_true_anomaly _ _ Hnu). }
  destruct (orbital_radius a e (s_E s)) as [x|rc] eqn:Hrc; simpl.
  { exists x. split; [reflexivity | left]. exact (raising_orbital_radius _ _ _ Hrc). }
  destruct (orbital_position_raised rc nu) as [x [-> Hx]]. simpl.
  exists x. split; [reflexivity | exact Hx].
Qed.

End RaisedExceptions.

(** An exception raised while the mean anomaly is computed is the outcome of
    the call, for every numeric instance. *)
Lemma keplerian_to_cartesian_mean_anomaly_raise
  {float : Type} `{PyFloat float} (a e w omega i t0 t M0 mu : float) (x : exn) :
  mean_anomaly a t0 t M0 mu = raise x ->
  keplerian_to_cartesian a e w omega i t0 t M0 mu = raise x.
Proof. intros Hm. unfold keplerian_to_cartesian. rewrite Hm. reflexivity. Qed.

(** Lines 36-43 with the test of line 36 false, operation by operation. *)
Lemma mean_anomaly_unfold
  {float : Type} `{PyFloat float} (a t0 t M0 mu : float) :
  feqb t t0 = false ->
  mean_anomaly a t0 t M0 mu
  = (p <- fpow a 3 ;; q <- fdiv mu p ;; n <- msqrt q ;;
     ret (fadd M0 (fmul (fmul (of_int 86400) (fsub t t0)) n))).
Proof.
  intros Ht. unfold mean_anomaly. rewrite Ht.
  unfold lift2, bind2, math_sqrt, int, val. rewrite attr_of_math. cbn.
  destruct (fpow a 3) as [x|p]; cbn; [reflexivity|].
  destruct (fdiv mu p) as [x|q]; cbn; [reflexivity|].
  destruct (msqrt q) as [x|n]; cbn; reflexivity.
Qed.

(** ** Facts at the real numbers *)

Lemma fdiv_R (x y : R) : y <> 0 -> fdiv x y = ret (x / y).
Proof.
  intros Hy. simpl. destruct (Req_dec_T y 0); [contradiction | reflexivity].
Qed.

Lemma fdiv_R_zero (x : R) : fdiv x 0 = raise ZeroDivisionError.
Proof.
  simpl. destruct (Req_dec_T 0 0) as [_|Hn]; [reflexivity | contradiction Hn; reflexivity].
Qed.

Lemma msqrt_R (x : R) : 0 <= x -> msqrt x = ret (sqrt x).
Proof.
  intros Hx. simpl. destruct (Rlt_dec x 0); [lra | reflexivity].
Qed.

Lemma msqrt_R_neg (x : R) : x < 0 -> msqrt x = raise ValueError.
Proof.
  intros Hx. simpl. destruct (Rlt_dec x 0); [reflexivity | lra].
Qed.

Lemma feqb_R_true (x y : R) : feqb x y = true <-> x = y.
Proof.
  simpl. unfold Req_bool. destruct (Req_dec_T x y); split; congruence.
Qed.

Lemma feqb_R_false (x y : R) : x <> y -> feqb x y = false.
Proof.
  intros Hxy. simpl. unfold Req_bool. destruct (Req_dec_T x y); [contradiction | reflexivity].
Qed.

Lemma cube_pos (a : R) : 0 < a -> 0 < a ^ 3.
Proof. intros Ha. apply pow_lt. exact Ha. Qed.

Lemma mean_anomaly_R_same (a t0 M0 mu : R) :
  mean_anomaly a t0 t0 M0 mu = ret M0.
Proof.
  unfold mean_anomaly. destruct (feqb_R_true t0 t0) as [_ ->]; reflexivity.
Qed.

(** Lines 40-43 in terms of the two operations that can raise. *)
Lemma mean_anomaly_R_unfold (a t0 t M0 mu : R) : t <> t0 ->
  mean_anomaly a t0 t M0 mu
  = (q <- fdiv mu (a ^ 3) ;; n <- msqrt q ;; ret (M0 + 86400 * (t - t0) * n)).
Proof.
  intros Ht. unfold mean_anomaly. rewrite (feqb_R_false Ht).
  unfold lift2, bind2, math_sqrt. rewrite attr_of_math.
  cbn [bind val int ret].
  change (fpow a 3) with (ret (A:=R) (a ^ 3)).
  cbn [bind ret of_int fadd fsub fmul PyFloat_R].
  destruct (fdiv mu (a ^ 3)) as [x|q]; [reflexivity|]. cbn [bind].
  destruct (msqrt q) as [x|n]; reflexivity.
Qed.

Lemma mean_anomaly_R (a t0 t M0 mu : R) : t <> t0 -> 0 < a -> 0 < mu ->
  mean_anomaly a t0 t M0 mu = ret (M0 + 86400 * (t - t0) * sqrt (mu / a ^ 3)).
Proof.
  intros Ht Ha Hmu. rewrite (mean_anomaly_R_unfold _ _ _ Ht).
  pose proof (cube_pos Ha) as Ha3.
  rewrite fdiv_R by lra. cbn [bind ret].
  rewrite msqrt_R; [reflexivity|].
  apply Rlt_le, Rdiv_lt_0_compat; assumption.
Qed.

Lemma residual_R (e Mt E : R) : residual e Mt E = ret (E - e * sin E - Mt).
Proof. reflexivity. Qed.

Lemma newton_advance_R (e E F : R) : 1 - e * cos E <> 0 ->
  newton_advance e E F = ret (E - F / (1 - e * cos E)).
Proof.
  intros Hd. unfold newton_advance, lift2, bind2, math_cos.
  rewrite attr_of_math. cbn [bind val int ret mcos PyFloat_R of_int fsub fmul].
  rewrite fdiv_R by exact Hd. reflexivity.
Qed.

Lemma elliptic_denominator (e E : R) : 0 <= e < 1 -> 1 - e * cos E <> 0.
Proof.
  intros [He0 He1]. pose proof (COS_bound E) as [_ Hc]. nra.
Qed.

Lemma newton_update_R (e Mt E : R) : 1 - e * cos E <> 0 ->
  newton_update e Mt E = ret (E - (E - e * sin E - Mt) / (1 - e * cos E)).
Proof.
  intros Hd. rewrite newton_update_unfold, residual_R. cbn [bind ret].
  apply newton_advance_R, Hd.
Qed.

Lemma iterM_newton_total (e Mt : R) (n : nat) : 0 <= e < 1 ->
  forall E, exists E', iterM n (newton_update e Mt) E = ret E'.
Proof.
  intros He. induction n as [|n IH]; intros E; simpl.
  - eauto.
  - rewrite newton_update_R by (apply elliptic_denominator, He).
    cbn [bind ret]. apply IH.
Qed.

Lemma solve_kepler_R_total (e Mt : R) : 0 <= e < 1 ->
  exists E, solve_kepler e Mt = ret (Solver 30 E (E - e * sin E - Mt)).
Proof.
  intros He. rewrite solve_kepler_iter.
  destruct (iterM_newton_total Mt 30 He Mt) as [E ->].
  exists E. reflexivity.
Qed.

Lemma true_anomaly_R (e E : R) : -1 <= e <= 1 ->
  true_anomaly e E
  = ret (2 * atan2 (sqrt (1 + e) * sin (E / 2)) (sqrt (1 - e) * cos (E / 2))).
Proof.
  intros [He0 He1]. unfold true_anomaly, lift2, bind2, math_atan2, math_sqrt, math_sin, math_cos.
  rewrite !attr_of_math.
  cbn [bind val int ret of_int fadd fsub fmul PyFloat_R].
  rewrite !msqrt_R by lra. rewrite fdiv_R by lra.
  reflexivity.
Qed.

Lemma orbital_radius_R (a e E : R) :
  orbital_radius a e E = ret (a * (1 - e * cos E)).
Proof. reflexivity. Qed.

Lemma orbital_position_R (rc nu : R) :
  orbital_position rc nu = raise (NameError "maths").
Proof. reflexivity. Qed.

Lemma mean_anomaly_R_total (a t0 t M0 mu : R) : 0 < a -> 0 < mu ->
  exists Mt, mean_anomaly a t0 t M0 mu = ret Mt.
Proof.
  intros Ha Hmu. destruct (Req_dec_T t t0) as [->|Ht].
  - rewrite mean_anomaly_R_same. eauto.
  - rewrite mean_anomaly_R by assumption. eauto.
Qed.

(** With valid elements nothing raises before line 71. *)
Lemma keplerian_to_cartesian_R_valid (a e w omega i t0 t M0 mu : R) :
  0 < a -> 0 <= e < 1 -> 0 < mu ->
  keplerian_to_cartesian a e w omega i t0 t M0 mu = raise (NameError "maths").
Proof.
  intros Ha He Hmu. unfold keplerian_to_cartesian.
  destruct (mean_anomaly_R_total t0 t M0 Ha Hmu) as [Mt ->]. cbn [bind ret].
  destruct (solve_kepler_R_total Mt He) as [E ->]. cbn [bind ret s_E s_i].
  rewrite true_anomaly_R by lra. cbn [bind ret].
  reflexivity.
Qed.

(** ** The circular orbit, [e = 0] *)

Lemma newton_update_circular (Mt : R) : newton_update 0 Mt Mt = ret Mt.
Proof.
  rewrite newton_update_R by (rewrite Rmult_0_l; lra).
  f_equal. rewrite !Rmult_0_l. field.
Qed.

Lemma iterM_circular (Mt : R) (n : nat) : iterM n (newton_update 0 Mt) Mt = ret Mt.
Proof.
  induction n as [|n IH]; simpl; [reflexivity|].
  rewrite newton_update_circular. exact IH.
Qed.

Lemma solve_kepler_circular (Mt : R) : solve_kepler 0 Mt = ret (Solver 30 Mt 0).
Proof.
  rewrite solve_kepler_iter, iterM_circular. cbn [bind ret].
  rewrite residual_R. cbn [bind ret]. do 2 f_equal. ring.
Qed.

(** *** [atan2] on the unit circle *)

Lemma cos_sub_PI (x : R) : cos (x - PI) = - cos x.
Proof. rewrite cos_minus, cos_PI, sin_PI. ring. Qed.

Lemma sin_sub_PI (x : R) : sin (x - PI) = - sin x.
Proof. rewrite sin_minus, cos_PI, sin_PI. ring. Qed.

Lemma cos_zero_cases (h : R) : - PI < h <= PI -> cos h = 0 ->
  h = PI / 2 \/ h = - (PI / 2).
Proof.
  intros [Hlo Hhi] Hc. pose proof PI_RGT_0 as Hpi.
  destruct (Rtotal_order h (PI / 2)) as [Hlt|[Heq|Hgt]]; [|left; exact Heq|].
  - destruct (Rtotal_order h (- (PI / 2))) as [Hlt'|[Heq'|Hgt']]; [|right; exact Heq'|].
    + assert (cos (- h) < 0) as Hn by (apply cos_lt_0; lra).
      rewrite cos_neg in Hn. lra.
    + assert (0 < cos h) as Hp by (apply cos_gt_0; lra). lra.
  - assert (cos h < 0) as Hn by (apply cos_lt_0; lra). lra.
Qed.

Lemma atan2_sin_cos (h : R) : - PI < h <= PI -> atan2 (sin h) (cos h) = h.
Proof.
  intros [Hlo Hhi]. pose proof PI_RGT_0 as Hpi. unfold atan2.
  destruct (Rlt_dec 0 (cos h)) as [Hc|Hc].
  - apply atan_tan. split.
    + destruct (Rlt_dec (- (PI / 2)) h) as [Hh|Hh]; [exact Hh|].
      assert (cos (- h) <= 0) as Hn by (apply cos_le_0; lra).
      rewrite cos_neg in Hn. lra.
    + destruct (Rlt_dec h (PI / 2)) as [Hh|Hh]; [exact Hh|].
      assert (cos h <= 0) as Hn by (apply cos_le_0; lra). lra.
  - destruct (Rlt_dec (cos h) 0) as [Hc'|Hc'].
    + destruct (Rle_dec 0 (sin h)) as [Hs|Hs].
      * assert (PI / 2 < h) as Hh.
        { destruct (Rlt_dec (PI / 2) h) as [Hh|Hh]; [exact Hh|].
          destruct (Rle_dec (- (PI / 2)) h) as [Hh'|Hh'].
          - assert (0 <= cos h) by (apply cos_ge_0; lra). lra.
          - assert (0 < sin (- h)) as Hp by (apply sin_gt_0; lra).
            rewrite sin_neg in Hp. lra. }
        replace (sin h / cos h) with (tan (h - PI)).
        -- rewrite atan_tan by lra. ring.
        -- unfold tan. rewrite sin_sub_PI, cos_sub_PI. field. lra.
      * assert (h < - (PI / 2)) as Hh.
        { destruct (Rlt_dec h (- (PI / 2))) as [Hh|Hh]; [exact Hh|].
          destruct (Rle_dec h (PI / 2)) as [Hh'|Hh'].
          - assert (0 <= cos h) by (apply cos_ge_0; lra). lra.
          - assert (0 <= sin h) by (apply sin_ge_0; lra). lra. }
        replace (sin h / cos h) with (tan (h + PI)).
        -- rewrite atan_tan by lra. ring.
        -- unfold tan. rewrite neg_sin, neg_cos. field. lra.
    + assert (cos h = 0) as Hz by lra.
      destruct (cos_zero_cases (conj Hlo Hhi) Hz) as [-> | ->].
      * rewrite sin_PI2. destruct (Rlt_dec 0 1); [reflexivity | lra].
      * rewrite sin_neg, sin_PI2.
        destruct (Rlt_dec 0 _); [lra|].
        destruct (Rlt_dec _ 0); [reflexivity | lra].
Qed.

Lemma true_anomaly_circular (Mt : R) :
  true_anomaly 0 Mt = ret (2 * atan2 (sin (Mt / 2)) (cos (Mt / 2))).
Proof.
  rewrite true_anomaly_R by lra.
  rewrite Rplus_0_r, Rminus_0_r, sqrt_1, !Rmult_1_l. reflexivity.
Qed.

(** The operations of the two instances raise the built-in exceptions of
    Python's arithmetic and nothing else. *)
Lemma raises_only_R :
  @raises_only R PyFloat_R (fun x => x = ZeroDivisionError \/ x = ValueError).
Proof.
  unfold raises_only, raising. cbn [fpow fdiv msqrt msin mcos PyFloat_R].
  repeat split.
  - intros x n e. destruct (n <? 0)%Z; [|discriminate].
    destruct (Req_dec_T x 0); [|discriminate].
    intros He. injection He as <-. left. reflexivity.
  - intros x y e. destruct (Req_dec_T y 0); [|discriminate].
    intros He. injection He as <-. left. reflexivity.
  - intros x e. destruct (Rlt_dec x 0); [|discriminate].
    intros He. injection He as <-. right. reflexivity.
  - intros x e. discriminate.
  - intros x e. discriminate.
Qed.

Lemma raising_checked (f : PrimFloat.float -> PrimFloat.float) (x : PrimFloat.float) :
  raising (fun x => x = ZeroDivisionError \/ x = OverflowError \/ x = ValueError)
          (Binary64.checked f x).
Proof.
  intros e. unfold Binary64.checked. cbv zeta.
  destruct (PrimFloat.is_nan (f x) && negb (PrimFloat.is_nan x))%bool.
  - intros He. injection He as <-. right. right. reflexivity.
  - destruct (PrimFloat.is_infinity (f x) && negb (PrimFloat.is_infinity x)
              && negb (PrimFloat.is_nan x))%bool; [|discriminate].
    intros He. injection He as <-. right. right. reflexivity.
Qed.

Lemma raises_only_binary64 (L : Binary64.libm) :
  @raises_only _ (Binary64.PyFloat_binary64 L)
    (fun x => x = ZeroDivisionError \/ x = OverflowError \/ x = ValueError).
Proof.
  unfold raises_only.
  cbn [fpow fdiv msqrt msin mcos Binary64.PyFloat_binary64].
  repeat split.
  - intros x n e. unfold Binary64.pow_int. cbv zeta.
    destruct (n =? 0)%Z; [discriminate|].
    destruct (FloatOps.Prim2SF x) as [s|s| |s m e']; try discriminate.
    + destruct (n <? 0)%Z; [|discriminate].
      intros He. injection He as <-. left. reflexivity.
    + match goal with
      | |- context [if PrimFloat.is_infinity ?r then _ else _] =>
          destruct (PrimFloat.is_infinity r)
      end; [|discriminate].
      intros He. injection He as <-. right. left. reflexivity.
  - intros x y e. unfold Binary64.div.
    destruct (PrimFloat.eqb y PrimFloat.zero); [|discriminate].
    intros He. injection He as <-. left. reflexivity.
  - intros x e. unfold Binary64.py_sqrt.
    destruct (PrimFloat.ltb x PrimFloat.zero); [|discriminate].
    intros He. injection He as <-. right. right. reflexivity.
  - intros x. apply raising_checked.
  - intros x. apply raising_checked.
Qed.

(** ** Invalid elements *)

Lemma true_anomaly_R_hyperbolic (e E : R) : e < -1 \/ 1 < e ->
  true_anomaly e E = raise ValueError.
Proof.
  intros He.
  unfold true_anomaly, lift2, bind2, math_atan2, math_sqrt, math_sin, math_cos.
  rewrite !attr_of_math.
  cbn [bind val int ret of_int fadd fsub fmul PyFloat_R].
  destruct He as [He|He].
  - rewrite msqrt_R_neg by lra. reflexivity.
  - rewrite msqrt_R by lra. cbn [bind ret].
    rewrite fdiv_R by lra. cbn [bind ret msin PyFloat_R].
    rewrite msqrt_R_neg by lra. reflexivity.
Qed.

Lemma keplerian_to_cartesian_early (a e w omega i t0 t M0 mu : R) (x : exn) :
  mean_anomaly a t0 t M0 mu = raise x ->
  keplerian_to_cartesian a e w omega i t0 t M0 mu = raise x.
Proof. intros Hm. unfold keplerian_to_cartesian. rewrite Hm. reflexivity. Qed.

Lemma mean_anomaly_R_zero_axis (t0 t M0 mu : R) : t <> t0 ->
  mean_anomaly 0 t0 t M0 mu = raise ZeroDivisionError.
Proof.
  intros Ht. rewrite (mean_anomaly_R_unfold _ _ _ Ht).
  replace (0 ^ 3) with 0 by ring. rewrite fdiv_R_zero. reflexivity.
Qed.

Lemma keplerian_to_cartesian_hyperbolic (a e w omega i t0 t M0 mu Mt : R)
  (s : solver_state) :
  e < -1 \/ 1 < e ->
  mean_anomaly a t0 t M0 mu = ret Mt ->
  solve_kepler e Mt = ret s ->
  keplerian_to_cartesian a e w omega i t0 t M0 mu = raise ValueError.
Proof.
  intros He Hm Hs. unfold keplerian_to_cartesian.
  rewrite Hm. cbn [bind ret]. rewrite Hs. cbn [bind ret].
  rewrite true_anomaly_R_hyperbolic by exact He. reflexivity.
Qed.

Lemma iterM_origin_e2 (n : nat) : iterM n (newton_update 2 0) 0 = ret 0.
Proof.
  induction n as [|n IH]; simpl; [reflexivity|].
  rewrite newton_update_R by (rewrite cos_0; lra).
  rewrite sin_0, cos_0.
  replace (0 - (0 - 2 * 0 - 0) / (1 - 2 * 1)) with 0 by field.
  exact IH.
Qed.

Lemma solve_kepler_origin_e2 : solve_kepler 2 0 = ret (Solver 30 0 0).
Proof.
  rewrite solve_kepler_iter, iterM_origin_e2. cbn [bind ret].
  rewrite residual_R, sin_0. cbn [bind ret]. do 2 f_equal. ring.
Qed.

(** ** The transformation to the inertial frame *)

Lemma inertial_position_R (w omega : R) (i : Z) (o : vec3 R) :
  inertial_position w omega i o
  = ret (Vec3
      (v0 o * (cos w * cos omega - sin w * cos (IZR i) * sin omega)
         - v1 o * (sin w * cos omega + cos w * cos (IZR i) * sin omega))
      (v0 o * (cos w * sin omega + sin w * cos (IZR i) * cos omega)
         - v1 o * (cos w * cos (IZR i) * cos omega - sin w * sin omega))
      (v0 o * (sin w * sin (IZR i)) + v1 o * (cos w * sin (IZR i)))).
Proof. reflexivity. Qed.

(** With [w = PI/4] and [omega = PI/2] the map of lines 80-86 sends every
    vector of the orbital plane with [v1 = - v0] to the origin. *)
Lemma inertial_position_collapse (v : vec3 R) : v1 v = - v0 v ->
  inertial_position (PI / 4) (PI / 2) 30 v = ret (Vec3 0 0 0).
Proof.
  intros Hv. rewrite inertial_position_R, Hv.
  rewrite cos_PI2, sin_PI2, sin_cos_PI4.
  f_equal. f_equal; ring.
Qed.

Lemma true_anomaly_circular_range (Mt : R) : - (2 * PI) < Mt <= 2 * PI ->
  true_anomaly 0 Mt = ret Mt.
Proof.
  intros [Hlo Hhi]. rewrite true_anomaly_circular.
  rewrite atan2_sin_cos by lra. f_equal. field.
Qed.

(** ** The claims about [keplerian_to_cartesian] *)

(** C1 (the code departs from the claim): for every valid input, [a > 0],
    [0 <= e < 1], [mu > 0], the call does not return: evaluation reaches line
    71, where [maths.sin] names a module that is not bound, and raises
    [NameError]; the orbital-plane position is never computed. *)
Theorem C1_valid_call_raises_NameError (a e w omega i t0 t M0 mu : R) :
  0 < a -> 0 <= e < 1 -> 0 < mu ->
  keplerian_to_cartesian a e w omega i t0 t M0 mu = raise (NameError "maths").
Proof. apply keplerian_to_cartesian_R_valid. Qed.

Lemma C1_witness :
  0 < 1 /\ 0 <= / 2 < 1 /\ 0 < 1 /\
  keplerian_to_cartesian 1 (/ 2) 0 0 0 0 1 0 1 = raise (NameError "maths").
Proof.
  assert (0 < 1) as H1 by lra.
  assert (0 <= / 2 < 1) as He by lra.
  repeat split; try lra.
  exact (C1_valid_call_raises_NameError 0 0 0 0 1 0 H1 He H1).
Defined.

(** C2: two calls that differ only in the inclination argument give the same
    result (the same value or the same exception), for every numeric
    instance; and whenever the solver returns, its counter, which is what
    the name [i] denotes from line 48 on, is 30. *)
Theorem C2_inclination_argument_is_ignored
  (float : Type) (PF : PyFloat float) (a e w omega i1 i2 t0 t M0 mu : float) :
  keplerian_to_cartesian a e w omega i1 t0 t M0 mu
  = keplerian_to_cartesian a e w omega i2 t0 t M0 mu
  /\ (forall Mt s, solve_kepler e Mt = ret s -> s_i s = 30%Z).
Proof.
  split; [reflexivity|].
  intros Mt s Hs. exact (solve_kepler_counter e Mt Hs).
Qed.

Lemma C2_witness :
  keplerian_to_cartesian 1 0 0 0 0 0 0 0 1
  = keplerian_to_cartesian 1 0 0 0 (PI / 2) 0 0 0 1
  /\ s_i (Solver 30 0 0) = 30%Z.
Proof.
  destruct (C2_inclination_argument_is_ignored PyFloat_R 1 0 0 0 0 (PI / 2) 0 0 0 1)
    as [Hsame Hcount].
  split; [exact Hsame|].
  exact (Hcount 0 (Solver 30 0 0) (solve_kepler_circular 0)).
Defined.

(** C3 (the code departs from the claim): the input [a = 1], [e = 0],
    [w = PI/4], [omega = PI/2], [i = 0], [t0 = t = 0], [M0 = -PI/4],
    [mu = 1] raises [NameError], so no position is returned.  On that input
    the eccentric and the true anomaly are [-PI/4] and the orbital radius is
    1; lines 80-86, with the loop counter 30 for [i], send the orbital-plane
    position [rc * (cos nu, sin nu, 0)] of these values, which is not zero,
    to the zero vector, whose norm is not the orbital radius.  Lines 88-94
    are the same map as lines 80-86. *)
Theorem C3_inertial_transform_is_not_a_rotation :
  keplerian_to_cartesian 1 0 (PI / 4) (PI / 2) 0 0 0 (- (PI / 4)) 1
  = raise (NameError "maths")
  /\ solve_kepler 0 (- (PI / 4)) = ret (Solver 30 (- (PI / 4)) 0)
  /\ true_anomaly 0 (- (PI / 4)) = ret (- (PI / 4))
  /\ orbital_radius 1 0 (- (PI / 4)) = ret 1
  /\ inertial_position (PI / 4) (PI / 2) 30
       (Vec3 (1 * cos (- (PI / 4))) (1 * sin (- (PI / 4))) (1 * 0))
     = ret (Vec3 0 0 0)
  /\ 1 * cos (- (PI / 4)) <> 0
  /\ (forall (w omega : R) (i : Z) (v : vec3 R),
        inertial_velocity w omega i v = inertial_position w omega i v).
Proof.
  pose proof PI_RGT_0 as Hpi.
  split; [apply keplerian_to_cartesian_R_valid; lra|].
  split; [apply solve_kepler_circular|].
  split; [apply true_anomaly_circular_range; lra|].
  split; [rewrite orbital_radius_R; f_equal; ring|].
  split; [|split].
  - apply inertial_position_collapse. cbn [v0 v1].
    rewrite cos_neg, sin_neg, sin_cos_PI4. ring.
  - rewrite cos_neg, Rmult_1_l.
    assert (0 < cos (PI / 4)) by (apply cos_gt_0; lra). lra.
  - reflexivity.
Qed.

(** C4, as the code has it: the function validates nothing and has no error
    of its own.  For every numeric instance, every exception the call raises
    is one that [**], [/], [math.sqrt], [math.sin] or [math.cos] raised, or
    the [NameError] of line 71; on Python's floats that is
    [ZeroDivisionError], [OverflowError], [ValueError] or that [NameError],
    for every argument.  An exception raised while the mean anomaly is
    computed ends the call before any iteration.  Invalid elements fail only
    where the arithmetic raises: for [t <> t0], [a = 0] raises
    [ZeroDivisionError] in the mean anomaly; [e < -1] or [e > 1] raises
    [ValueError] in the true anomaly, after the solver loop has run its 30
    iterations. *)
Theorem C4_no_validation_only_arithmetic_errors :
  (forall (float : Type) (PF : PyFloat float) (P : exn -> Prop),
      raises_only P ->
      forall a e w omega i t0 t M0 mu : float,
      exists x, keplerian_to_cartesian a e w omega i t0 t M0 mu = raise x /\
                (P x \/ x = NameError "maths"))
  /\ (forall (L : Binary64.libm) (a e w omega i t0 t M0 mu : PrimFloat.float),
      exists x,
        @keplerian_to_cartesian _ (Binary64.PyFloat_binary64 L)
          a e w omega i t0 t M0 mu = raise x /\
        (x = ZeroDivisionError \/ x = OverflowError \/ x = ValueError \/
         x = NameError "maths"))
  /\ (forall (float : Type) (PF : PyFloat float)
             (a e w omega i t0 t M0 mu : float) (x : exn),
      mean_anomaly a t0 t M0 mu = raise x ->
      keplerian_to_cartesian a e w omega i t0 t M0 mu = raise x)
  /\ (forall a e w omega i t0 t M0 mu : R, t <> t0 -> a = 0 ->
      mean_anomaly a t0 t M0 mu = raise ZeroDivisionError /\
      keplerian_to_cartesian a e w omega i t0 t M0 mu = raise ZeroDivisionError)
  /\ (forall a e w omega i t0 t M0 mu : R, e < -1 \/ 1 < e ->
      forall Mt s, mean_anomaly a t0 t M0 mu = ret Mt ->
                   solve_kepler e Mt = ret s ->
      s_i s = 30%Z /\
      keplerian_to_cartesian a e w omega i t0 t M0 mu = raise ValueError).
Proof.
  split; [|split; [|split; [|split]]].
  - intros float PF P HP a e w omega i t0 t M0 mu.
    exact (keplerian_to_cartesian_raised HP a e w omega i t0 t M0 mu).
  - intros L a e w omega i t0 t M0 mu.
    destruct (keplerian_to_cartesian_raised (raises_only_binary64 L)
                a e w omega i t0 t M0 mu) as [x [Hx HP]].
    exists x. split; [exact Hx | tauto].
  - intros float PF a e w omega i t0 t M0 mu x.
    apply keplerian_to_cartesian_mean_anomaly_raise.
  - intros a e w omega i t0 t M0 mu Ht ->.
    pose proof (mean_anomaly_R_zero_axis M0 mu Ht) as Hm.
    split; [exact Hm | apply keplerian_to_cartesian_early, Hm].
  - intros a e w omega i t0 t M0 mu He Mt s Hm Hs. split.
    + exact (solve_kepler_counter e Mt Hs).
    + exact (keplerian_to_cartesian_hyperbolic a w omega i t0 t M0 mu He Hm Hs).
Qed.

Lemma C4_witness :
  1 <> 0 /\
  keplerian_to_cartesian 0 0 0 0 0 0 1 0 1 = raise ZeroDivisionError /\
  exists x, keplerian_to_cartesian 1 2 0 0 0 0 0 0 1 = raise x /\
            ((x = ZeroDivisionError \/ x = ValueError) \/ x = NameError "maths").
Proof.
  assert (1 <> 0) as Ht by lra.
  split; [exact Ht|].
  destruct C4_no_validation_only_arithmetic_errors as [Hany [_ [_ [Hzero _]]]].
  split.
  - exact (proj2 (Hzero 0 0 0 0 0 0 1 0 1 Ht eq_refl)).
  - exact (Hany R PyFloat_R _ raises_only_R 1 2 0 0 0 0 0 0 1).
Defined.

(** The claim C4 as it is stated fails at [e = 2] (with [a = 1], [mu = 1],
    [t = t0 = 0], [M0 = 0]): the solver runs its 30 iterations, and the call
    then fails with [ValueError], not with InvalidEccentricity. *)
Lemma C4_counterexample :
  solve_kepler 2 0 = ret (Solver 30 0 0)
  /\ keplerian_to_cartesian 1 2 0 0 0 0 0 0 1 = raise ValueError
  /\ exc_class ValueError <> "InvalidEccentricity"%string.
Proof.
  split; [exact solve_kepler_origin_e2|]. split; [|discriminate].
  apply keplerian_to_cartesian_hyperbolic with (Mt := 0) (s := Solver 30 0 0).
  - right. lra.
  - apply mean_anomaly_R_same.
  - exact solve_kepler_origin_e2.
Qed.

(** C5: for every [Mt] and [e], and every numeric instance, the solver is
    the update [E <- E - (E - e*sin(E) - Mt) / (1 - e*cos(E))] applied 30
    times from [E = Mt], followed by the residual of the last [E]; nothing
    else decides the number of updates.  At the real numbers, for
    [0 <= e < 1], the 30 updates all yield a value and the solver returns
    with its counter at 30. *)
Theorem C5_solver_is_thirty_newton_updates :
  (forall (float : Type) (PF : PyFloat float) (e Mt : float),
      solve_kepler e Mt
      = (E <- iterM 30 (newton_update e Mt) Mt ;;
         F <- residual e Mt E ;;
         ret (Solver 30 E F)))
  /\ (forall e Mt : R, 0 <= e < 1 ->
      exists E, iterM 30 (newton_update e Mt) Mt = ret E /\
                solve_kepler e Mt = ret (Solver 30 E (E - e * sin E - Mt))).
Proof.
  split.
  - intros float PF e Mt. apply solve_kepler_iter.
  - intros e Mt He.
    destruct (iterM_newton_total Mt 30 He Mt) as [E HE].
    exists E. split; [exact HE|].
    rewrite solve_kepler_iter, HE. reflexivity.
Qed.

Lemma C5_witness :
  0 <= / 2 < 1 /\
  exists E, solve_kepler (/ 2) 1 = ret (Solver 30 E (E - / 2 * sin E - 1)).
Proof.
  assert (0 <= / 2 < 1) as He by lra.
  split; [exact He|].
  destruct (proj2 C5_solver_is_thirty_newton_updates (/ 2) 1 He) as [E [_ HE]].
  exists E. exact HE.
Defined.

(** C6, as the code has it: for [t != t0] the mean anomaly is [M0 + dt * n]
    with [dt = 86400 * (t - t0)] and [n = sqrt (mu / a ** 3)], as it stands
    and not reduced to a range, whenever [a ** 3], the division and the
    square root return; when one of the three raises, that exception is the
    outcome.  This holds for every numeric instance. *)
Theorem C6_mean_anomaly_propagated
  (float : Type) (PF : PyFloat float) (a t0 t M0 mu : float) :
  feqb t t0 = false ->
  mean_anomaly a t0 t M0 mu
  = (p <- fpow a 3 ;; q <- fdiv mu p ;; n <- msqrt q ;;
     ret (fadd M0 (fmul (fmul (of_int 86400) (fsub t t0)) n))).
Proof. apply mean_anomaly_unfold. Qed.

Section MeanAnomalyOnFloats.

Import PrimFloat.

Lemma C6_witness :
  PrimFloat.eqb 1 0 = false /\
  forall L : Binary64.libm,
    @mean_anomaly _ (Binary64.PyFloat_binary64 L)
      2%float 0%float 1%float 0%float 8%float
    = ret 86400%float.
Proof.
  split; [reflexivity|]. intros L.
  rewrite (C6_mean_anomaly_propagated (Binary64.PyFloat_binary64 L)
             2%float 0%float 1%float 0%float 8%float eq_refl).
  vm_compute. reflexivity.
Defined.

(** The claim C6 as it is stated fails on Python's floats at valid elements
    ([a > 0], [mu = 1 > 0], [t = 1 != t0 = 0], [M0 = 0]), whatever the C
    library computes: for [a = 2 ** -700] the cube underflows to [0.0] and
    the division raises [ZeroDivisionError]; for [a = 2 ** 700] the cube
    raises [OverflowError].  In neither case is there a mean anomaly. *)
Lemma C6_counterexample :
  PrimFloat.ltb 0 0x1p-700 = true /\ PrimFloat.ltb 0 0x1p+700 = true /\
  PrimFloat.ltb 0 1 = true /\
  PrimFloat.eqb 1 0 = false /\
  (forall L : Binary64.libm,
      @mean_anomaly _ (Binary64.PyFloat_binary64 L)
        0x1p-700%float 0%float 1%float 0%float 1%float
      = raise ZeroDivisionError) /\
  (forall L : Binary64.libm,
      @mean_anomaly _ (Binary64.PyFloat_binary64 L)
        0x1p+700%float 0%float 1%float 0%float 1%float
      = raise OverflowError).
Proof.
  repeat split; try reflexivity; intros L; vm_compute; reflexivity.
Qed.

End MeanAnomalyOnFloats.

(** C7: when [t == t0] holds the mean anomaly is [M0] itself, for every
    numeric instance: no operation of the instance is applied to it. *)
Theorem C7_mean_anomaly_at_epoch
  (float : Type) (PF : PyFloat float) (a t0 t M0 mu : float) :
  feqb t t0 = true -> mean_anomaly a t0 t M0 mu = ret M0.
Proof. intros Heq. unfold mean_anomaly. rewrite Heq. reflexivity. Qed.

Lemma C7_witness :
  feqb 2451545 2451545 = true /\ mean_anomaly 1 2451545 2451545 (PI / 3) 1 = ret (PI / 3).
Proof.
  assert (feqb 2451545 2451545 = true) as Heq by (apply feqb_R_true; reflexivity).
  split; [exact Heq|].
  exact (C7_mean_anomaly_at_epoch PyFloat_R 1 2451545 2451545 (PI / 3) 1 Heq).
Defined.

(** C8, as the code has it: for [e = 0] and any [Mt] the eccentric anomaly
    is [Mt] after any number of updates, in particular after the 30 of the
    solver; the true anomaly is [2 * atan2 (sin (Mt / 2)) (cos (Mt / 2))],
    the angle of [Mt / 2] brought into the range of [atan2] and doubled,
    which need not be [Mt]; the orbital radius is [a]. *)
Theorem C8_circular_orbit (a Mt : R) :
  (forall n, iterM n (newton_update 0 Mt) Mt = ret Mt)
  /\ solve_kepler 0 Mt = ret (Solver 30 Mt 0)
  /\ true_anomaly 0 Mt = ret (2 * atan2 (sin (Mt / 2)) (cos (Mt / 2)))
  /\ orbital_radius a 0 Mt = ret a.
Proof.
  split; [intros n; apply iterM_circular|].
  split; [apply solve_kepler_circular|].
  split; [apply true_anomaly_circular|].
  rewrite orbital_radius_R. f_equal. ring.
Qed.

(** The claim C8 as it is stated fails at [M0 = 4 PI] ([a = 1], [mu = 1],
    [t = t0 = 0]): the mean and the eccentric anomaly are [4 PI], the true
    anomaly is [0]. *)
Lemma C8_counterexample :
  mean_anomaly 1 0 0 (4 * PI) 1 = ret (4 * PI)
  /\ solve_kepler 0 (4 * PI) = ret (Solver 30 (4 * PI) 0)
  /\ true_anomaly 0 (4 * PI) = ret 0
  /\ 0 <> 4 * PI.
Proof.
  split; [apply mean_anomaly_R_same|].
  split; [apply solve_kepler_circular|].
  split.
  - rewrite true_anomaly_circular.
    replace (4 * PI / 2) with (2 * PI) by field.
    rewrite sin_2PI, cos_2PI. unfold atan2.
    destruct (Rlt_dec 0 1); [|lra].
    replace (0 / 1) with 0 by field. rewrite atan_0. f_equal. ring.
  - pose proof PI_RGT_0. lra.
Qed.

(** C9 (the code departs from the claim): on the reference scenario the call
    raises [NameError] at line 71 and returns neither position nor
    velocity. *)
Theorem C9_reference_scenario_raises_NameError :
  keplerian_to_cartesian 7000000 0 0 0 0 0 0 0 398600441800000
  = raise (NameError "maths").
Proof. apply keplerian_to_cartesian_R_valid; lra. Qed.

(** ** The catalogue merge *)

Module PlanetsApiFacts.

Import PlanetsApi.
Open Scope string_scope.

Section DictFacts.

Context {A : Type}.

Lemma getitem_none_iff (k : string) (d : dict A) : getitem k d = None <-> ~ In k (keys d).
Proof.
  induction d as [|[k' v] d IH]; simpl.
  - tauto.
  - destruct (String.eqb_spec k k') as [->|Hne].
    + split; [discriminate | intros Hn; contradiction Hn; left; reflexivity].
    + rewrite IH. split.
      * intros Hn [Heq|Hin]; [congruence | tauto].
      * tauto.
Qed.

Lemma contains_false_iff (k : string) (d : dict A) : contains k d = false <-> getitem k d = None.
Proof.
  unfold contains. induction d as [|[k' v] d IH]; simpl.
  - tauto.
  - destruct (String.eqb k k'); simpl; [split; discriminate | exact IH].
Qed.

Lemma contains_true_iff (k : string) (d : dict A) :
  contains k d = true <-> exists v, getitem k d = Some v.
Proof.
  unfold contains. induction d as [|[k' v] d IH]; simpl.
  - split; [discriminate | intros [v Hv]; discriminate].
  - destruct (String.eqb k k'); simpl; [split; eauto | exact IH].
Qed.

Lemma getitem_setitem_same (k : string) (v : A) (d : dict A) : getitem k (setitem k v d) = Some v.
Proof.
  induction d as [|[k' v'] d IH]; simpl.
  - rewrite String.eqb_refl. reflexivity.
  - destruct (String.eqb k k') eqn:Hk; simpl; rewrite Hk; [reflexivity | exact IH].
Qed.

Lemma getitem_setitem_other (k k' : string) (v : A) (d : dict A) :
  k <> k' -> getitem k (setitem k' v d) = getitem k d.
Proof.
  intros Hne. induction d as [|[k2 v2] d IH]; simpl.
  - destruct (String.eqb_spec k k'); [contradiction | reflexivity].
  - destruct (String.eqb_spec k' k2) as [->|Hk2]; simpl.
    + destruct (String.eqb_spec k k2); [contradiction | reflexivity].
    + destruct (String.eqb k k2); [reflexivity | exact IH].
Qed.

Lemma getitem_modify_same (k : string) (f : A -> A) (d : dict A) :
  getitem k (modify k f d) = option_map f (getitem k d).
Proof.
  induction d as [|[k' v'] d IH]; simpl; [reflexivity|].
  destruct (String.eqb k k') eqn:Hk; simpl; rewrite Hk; [reflexivity | exact IH].
Qed.

Lemma getitem_modify_other (k k' : string) (f : A -> A) (d : dict A) :
  k <> k' -> getitem k (modify k' f d) = getitem k d.
Proof.
  intros Hne. induction d as [|[k2 v2] d IH]; simpl; [reflexivity|].
  destruct (String.eqb_spec k' k2) as [->|Hk2]; simpl.
  - destruct (String.eqb_spec k k2); [contradiction | reflexivity].
  - destruct (String.eqb k k2); [reflexivity | exact IH].
Qed.

(** [update] leaves the fields that [other] does not have. *)
Lemma getitem_update_absent (f : string) (other : dict A) :
  forall d, getitem f other = None -> getitem f (update d other) = getitem f d.
Proof.
  unfold update. induction other as [|[k v] other IH]; intros d Hf; simpl.
  - reflexivity.
  - simpl in Hf. destruct (String.eqb_spec f k) as [->|Hne]; [discriminate|].
    rewrite IH by exact Hf. apply getitem_setitem_other, Hne.
Qed.

(** [update] takes every field of [other]. *)
Lemma getitem_update_present (f : string) (v : A) (other : dict A) :
  NoDup (keys other) ->
  forall d, getitem f other = Some v -> getitem f (update d other) = Some v.
Proof.
  unfold update. induction other as [|[k v'] other IH]; intros Hnd d Hf; simpl.
  - discriminate.
  - simpl in Hf. simpl in Hnd. inversion Hnd as [|? ? Hk Hnd']; subst.
    destruct (String.eqb_spec f k) as [->|Hne].
    + injection Hf as ->.
      change (getitem k (update (setitem k v d) other) = Some v).
      rewrite getitem_update_absent by (apply getitem_none_iff, Hk).
      apply getitem_setitem_same.
    + apply IH; assumption.
Qed.

Lemma getitem_in_values (k : string) (v : A) (d : dict A) :
  getitem k d = Some v -> In v (values d).
Proof.
  induction d as [|[k' v'] d IH]; simpl; [discriminate|].
  destruct (String.eqb k k'); [intros [= ->]; left; reflexivity | auto].
Qed.

End DictFacts.

Section MergeFacts.

Variable value : Type.
Variable format : value -> string.

Lemma getitem_merge_step_other (key k : string) (b : body value)
  (bodies_prev : dict (body value)) :
  key <> k -> getitem key (merge_step bodies_prev (k, b)) = getitem key bodies_prev.
Proof.
  intros Hne. unfold merge_step.
  destruct (negb (contains k bodies_prev)).
  - apply getitem_setitem_other, Hne.
  - apply getitem_modify_other, Hne.
Qed.

Lemma getitem_merge_step_same (key : string) (b : body value)
  (bodies_prev : dict (body value)) :
  getitem key (merge_step bodies_prev (key, b))
  = Some match getitem key bodies_prev with
         | None => b
         | Some stored => update stored b
         end.
Proof.
  unfold merge_step. destruct (contains key bodies_prev) eqn:Hc; simpl.
  - apply contains_true_iff in Hc. destruct Hc as [stored Hs].
    rewrite getitem_modify_same, Hs. reflexivity.
  - apply contains_false_iff in Hc. rewrite Hc. apply getitem_setitem_same.
Qed.

(** A body that was not fetched is left as it was stored. *)
Lemma getitem_merge_absent (key : string) (bodies : dict (body value)) :
  forall bodies_prev, getitem key bodies = None ->
    getitem key (merge bodies bodies_prev) = getitem key bodies_prev.
Proof.
  unfold merge. induction bodies as [|[k b] bodies IH]; intros bodies_prev Hk; cbn [fold_left].
  - reflexivity.
  - simpl in Hk. destruct (String.eqb_spec key k) as [->|Hne]; [discriminate|].
    rewrite IH by exact Hk. apply getitem_merge_step_other, Hne.
Qed.

(** A fetched body is stored as it is when it is new, and otherwise updates
    the stored one. *)
Lemma getitem_merge_fetched (key : string) (b : body value)
  (bodies : dict (body value)) :
  NoDup (keys bodies) ->
  forall bodies_prev, getitem key bodies = Some b ->
    getitem key (merge bodies bodies_prev)
    = Some match getitem key bodies_prev with
           | None => b
           | Some stored => update stored b
           end.
Proof.
  unfold merge. induction bodies as [|[k b0] bodies IH]; intros Hnd bodies_prev Hk; cbn [fold_left].
  - discriminate.
  - simpl in Hk. simpl in Hnd. inversion Hnd as [|? ? Hnk Hnd']; subst.
    destruct (String.eqb_spec key k) as [->|Hne].
    + injection Hk as ->.
      change (getitem k (merge bodies (merge_step bodies_prev (k, b))) = 
              Some match getitem k bodies_prev with
                   | None => b
                   | Some stored => update stored b
                   end).
      rewrite getitem_merge_absent by (apply getitem_none_iff, Hnk).
      apply getitem_merge_step_same.
    + rewrite IH by assumption.
      rewrite getitem_merge_step_other by exact Hne. reflexivity.
Qed.

Lemma merge_overwrites (bodies bodies_prev : dict (body value))
  (key f : string) (b : body value) (v : value) :
  NoDup (keys bodies) -> NoDup (keys b) ->
  getitem key bodies = Some b -> getitem f b = Some v ->
  exists m, getitem key (merge bodies bodies_prev) = Some m /\ getitem f m = Some v.
Proof.
  intros Hnd Hb Hk Hf.
  rewrite getitem_merge_fetched with (b := b) by assumption.
  eexists. split; [reflexivity|].
  destruct (getitem key bodies_prev) as [stored|]; [|exact Hf].
  apply getitem_update_present; assumption.
Qed.

Lemma merge_retains (bodies bodies_prev : dict (body value))
  (key f : string) (stored : body value) (v : value) :
  NoDup (keys bodies) ->
  getitem key bodies_prev = Some stored -> getitem f stored = Some v ->
  (forall b, getitem key bodies = Some b -> getitem f b = None) ->
  exists m, getitem key (merge bodies bodies_prev) = Some m /\ getitem f m = Some v.
Proof.
  intros Hnd Hs Hf Habs.
  destruct (getitem key bodies) as [b|] eqn:Hk.
  - rewrite getitem_merge_fetched with (b := b) by assumption. rewrite Hs.
    eexists. split; [reflexivity|].
    rewrite getitem_update_absent by (apply Habs; reflexivity). exact Hf.
  - rewrite getitem_merge_absent by exact Hk. eauto.
Qed.

Lemma warnings_colour (m : body value) (name : value) :
  getitem "name" m = Some name -> getitem "colour" m = None ->
  In (colour_warning format name) (warnings format m).
Proof.
  intros Hn Hc. unfold warnings. apply in_or_app. left.
  apply contains_false_iff in Hc. rewrite Hc.
  assert (contains "name" m = true) as -> by (apply contains_true_iff; eauto).
  rewrite Hn. simpl. left. reflexivity.
Qed.

Lemma warnings_parent (m : body value) (name : value) :
  getitem "name" m = Some name -> getitem "parent" m = None ->
  In (parent_warning format name) (warnings format m).
Proof.
  intros Hn Hc. unfold warnings. apply in_or_app. right.
  apply contains_false_iff in Hc. rewrite Hc.
  assert (contains "name" m = true) as -> by (apply contains_true_iff; eauto).
  rewrite Hn. simpl. left. reflexivity.
Qed.

End MergeFacts.

End PlanetsApiFacts.

(** C10: the merge lets every fetched field overwrite the stored value of the
    same body and keeps the stored fields that the fetch does not have (such
    as colour and parent); the list written back is the values of the merged
    table, and for every body in it that has a name a warning line is
    printed when it has no colour, and another when it has no parent. *)
Theorem C10_merge_overwrites_retains_and_warns
  (value : Type) (format : value -> string)
  (bodies bodies_prev : PlanetsApi.dict (PlanetsApi.body value)) :
  NoDup (PlanetsApi.keys bodies) ->
  (forall key b, PlanetsApi.getitem key bodies = Some b -> NoDup (PlanetsApi.keys b)) ->
  let merged := PlanetsApi.merge bodies bodies_prev in
  let result := PlanetsApi.merge_and_report format bodies bodies_prev in
  (forall key b f v,
      PlanetsApi.getitem key bodies = Some b ->
      PlanetsApi.getitem f b = Some v ->
      exists m, PlanetsApi.getitem key merged = Some m /\ In m (fst result) /\
                PlanetsApi.getitem f m = Some v)
  /\ (forall key stored f v,
      PlanetsApi.getitem key bodies_prev = Some stored ->
      PlanetsApi.getitem f stored = Some v ->
      (forall b, PlanetsApi.getitem key bodies = Some b ->
                 PlanetsApi.getitem f b = None) ->
      exists m, PlanetsApi.getitem key merged = Some m /\ In m (fst result) /\
                PlanetsApi.getitem f m = Some v)
  /\ (forall m name,
      In m (fst result) ->
      PlanetsApi.getitem "name" m = Some name ->
      (PlanetsApi.getitem "colour" m = None ->
       In (PlanetsApi.colour_warning format name) (snd result))
      /\ (PlanetsApi.getitem "parent" m = None ->
          In (PlanetsApi.parent_warning format name) (snd result))).
Proof.
  intros Hnd Hwf merged result. repeat split.
  - intros key b f v Hk Hf.
    destruct (@PlanetsApiFacts.merge_overwrites value bodies bodies_prev key f b v
                Hnd (Hwf _ _ Hk) Hk Hf) as [m [Hm Hv]].
    exists m. repeat split; [exact Hm | | exact Hv].
    apply PlanetsApiFacts.getitem_in_values with (k := key). exact Hm.
  - intros key stored f v Hs Hf Habs.
    destruct (@PlanetsApiFacts.merge_retains value bodies bodies_prev key f stored v
                Hnd Hs Hf Habs) as [m [Hm Hv]].
    exists m. repeat split; [exact Hm | | exact Hv].
    apply PlanetsApiFacts.getitem_in_values with (k := key). exact Hm.
  - intros Hc. apply in_flat_map. exists m. split; [assumption|].
    apply PlanetsApiFacts.warnings_colour; assumption.
  - intros Hc. apply in_flat_map. exists m. split; [assumption|].
    apply PlanetsApiFacts.warnings_parent; assumption.
Qed.

Lemma C10_witness :
  let bodies :=
    [("earth", [("name", "Earth"); ("mass", "5.97e24")]);
     ("ceres", [("name", "Ceres")])]%string in
  let bodies_prev :=
    [("sun", [("name", "Sun"); ("colour", "yellow")]);
     ("earth", [("name", "Earth"); ("mass", "6e24"); ("colour", "blue")])]%string in
  let result := PlanetsApi.merge_and_report (fun s : string => s) bodies bodies_prev in
  NoDup (PlanetsApi.keys bodies)
  /\ (exists m, In m (fst result)
                /\ PlanetsApi.getitem "mass" m = Some "5.97e24"%string)
  /\ (exists m, In m (fst result)
                /\ PlanetsApi.getitem "colour" m = Some "blue"%string)
  /\ In "WARNING: Ceres has not been designated a colour"%string (snd result).
Proof.
  intros bodies bodies_prev result.
  assert (NoDup (PlanetsApi.keys bodies)) as Hnd.
  { repeat constructor; simpl; intuition discriminate. }
  assert (forall key b, PlanetsApi.getitem key bodies = Some b ->
                        NoDup (PlanetsApi.keys b)) as Hwf.
  { intros key b. simpl.
    destruct (String.eqb key "earth");
      [intros [= <-]; repeat constructor; simpl; intuition discriminate|].
    destruct (String.eqb key "ceres");
      [intros [= <-]; repeat constructor; simpl; intuition discriminate|].
    discriminate. }
  destruct (@C10_merge_overwrites_retains_and_warns string (fun s : string => s)
              bodies bodies_prev Hnd Hwf) as [Hover [Hkeep Hwarn]].
  split; [exact Hnd|]. split; [|split].
  - destruct (Hover "earth" _ "mass" "5.97e24" eq_refl eq_refl)%string
      as [m [_ [Hin Hv]]].
    exists m. split; assumption.
  - destruct (Hkeep "earth" _ "colour" "blue" eq_refl eq_refl)%string
      as [m [_ [Hin Hv]]].
    + intros b [= <-]. reflexivity.
    + exists m. split; assumption.
  - apply (Hwarn [("name", "Ceres")] "Ceres")%string.
    + simpl. right. right. left. reflexivity.
    + reflexivity.
    + reflexivity.
Defined.

(** * Further properties of [keplerian_to_cartesian] *)

Unset Implicit Arguments.

(** ** The solver *)

(** Iterating commutes with a change of variable that the step commutes
    with. *)
Lemma iterM_conjugate {A} (f g : A -> Exc A) (phi : A -> A) :
  (forall x, g (phi x) = (y <- f x ;; ret (phi y))) ->
  forall n x, iterM n g (phi x) = (y <- iterM n f x ;; ret (phi y)).
Proof.
  intros Hstep. induction n as [|n IH]; intros x; simpl; [reflexivity|].
  rewrite Hstep. destruct (f x) as [err|y]; simpl; [reflexivity | apply IH].
Qed.

Lemma newton_update_R_unfold (e Mt E : R) :
  newton_update e Mt E
  = (q <- fdiv (E - e * sin E - Mt) (1 - e * cos E) ;; ret (E - q)).
Proof.
  unfold newton_update, lift2, bind2, math_sin, math_cos.
  rewrite !attr_of_math.
  cbn [bind val int ret of_int fsub fmul msin mcos PyFloat_R].
  destruct (fdiv _ _); reflexivity.
Qed.

Lemma newton_update_opp (e Mt E : R) :
  newton_update e (- Mt) (- E) = (x <- newton_update e Mt E ;; ret (- x)).
Proof.
  rewrite !newton_update_R_unfold, sin_neg, cos_neg.
  destruct (Req_dec_T (1 - e * cos E) 0) as [Hz|Hnz].
  - rewrite Hz, !fdiv_R_zero. reflexivity.
  - rewrite !fdiv_R by exact Hnz. cbn [bind ret]. f_equal. field. exact Hnz.
Qed.

Lemma solve_kepler_opp (e Mt : R) :
  solve_kepler e (- Mt)
  = (s <- solve_kepler e Mt ;; ret (Solver (s_i s) (- s_E s) (- s_F s))).
Proof.
  rewrite !solve_kepler_iter.
  rewrite (iterM_conjugate (newton_update e Mt) (newton_update e (- Mt)) Ropp
             (newton_update_opp e Mt)).
  destruct (iterM 30 (newton_update e Mt) Mt) as [err|E]; [reflexivity|].
  cbn [bind ret]. rewrite !residual_R, sin_neg. cbn [bind ret s_i s_E s_F].
  do 2 f_equal. ring.
Qed.

(** X3: the solver is odd in the mean anomaly: for [- Mt] it gives the
    opposite eccentric anomaly and residual, and raises where it raises for
    [Mt]. *)
Theorem X3_solver_is_odd (e Mt : R) :
  solve_kepler e (- Mt)
  = (s <- solve_kepler e Mt ;; ret (Solver (s_i s) (- s_E s) (- s_F s))).
Proof. apply solve_kepler_opp. Qed.

Lemma iterM_fixed_point (e Mt : R) (n : nat) :
  e * sin Mt = 0 -> 1 - e * cos Mt <> 0 ->
  iterM n (newton_update e Mt) Mt = ret Mt.
Proof.
  intros Hs Hd. induction n as [|n IH]; simpl; [reflexivity|].
  rewrite newton_update_R by exact Hd. cbn [bind ret].
  replace (Mt - (Mt - e * sin Mt - Mt) / (1 - e * cos Mt)) with Mt; [exact IH|].
  rewrite Hs. field. exact Hd.
Qed.

(** X5: where the initial guess already solves Kepler's equation, that is
    [e * sin Mt = 0] (periapsis and apoapsis, or a circular orbit), and the
    denominator [1 - e * cos Mt] is not zero, the 30 updates leave it
    unchanged and the residual is 0. *)
Theorem X5_solver_keeps_exact_guess (e Mt : R) :
  e * sin Mt = 0 -> 1 - e * cos Mt <> 0 ->
  solve_kepler e Mt = ret (Solver 30 Mt 0).
Proof.
  intros Hs Hd. rewrite solve_kepler_iter, iterM_fixed_point by assumption.
  cbn [bind ret]. rewrite residual_R, Hs. cbn [bind ret]. do 2 f_equal. ring.
Qed.

Lemma X5_witness :
  / 2 * sin PI = 0 /\ 1 - / 2 * cos PI <> 0 /\
  solve_kepler (/ 2) PI = ret (Solver 30 PI 0).
Proof.
  assert (/ 2 * sin PI = 0) as Hs by (rewrite sin_PI; lra).
  assert (1 - / 2 * cos PI <> 0) as Hd by (rewrite cos_PI; lra).
  split; [exact Hs|]. split; [exact Hd|].
  exact (X5_solver_keeps_exact_guess (/ 2) PI Hs Hd).
Defined.

(** X6: where the denominator of the first update vanishes,
    [1 - e * cos Mt = 0] (for instance [e = 1] at [Mt = 0]), the solver
    raises [ZeroDivisionError]. *)
Theorem X6_solver_singular_start (e Mt : R) :
  1 - e * cos Mt = 0 -> solve_kepler e Mt = raise ZeroDivisionError.
Proof.
  intros Hd. rewrite solve_kepler_iter.
  change (iterM 30 (newton_update e Mt) Mt)
    with (y <- newton_update e Mt Mt ;; iterM 29 (newton_update e Mt) y).
  rewrite newton_update_R_unfold, Hd, fdiv_R_zero. reflexivity.
Qed.

Lemma X6_witness :
  1 - 1 * cos 0 = 0 /\ solve_kepler 1 0 = raise ZeroDivisionError.
Proof.
  assert (1 - 1 * cos 0 = 0) as Hd by (rewrite cos_0; lra).
  split; [exact Hd|].
  exact (X6_solver_singular_start 1 0 Hd).
Defined.

(** ** The true anomaly *)

Lemma atan2_range (x y : R) : - PI < atan2 y x <= PI.
Proof.
  pose proof PI_RGT_0 as Hpi. unfold atan2.
  destruct (Rlt_dec 0 x) as [Hx|Hx].
  - pose proof (atan_bound (y / x)). lra.
  - destruct (Rlt_dec x 0) as [Hx'|Hx'].
    + pose proof (atan_bound (y / x)) as Hb.
      destruct (Rle_dec 0 y) as [Hy|Hy].
      * assert (atan (y / x) <= 0) as Hle.
        { destruct (Req_dec_T y 0) as [->|Hy0].
          - unfold Rdiv. rewrite Rmult_0_l, atan_0. lra.
          - rewrite <- atan_0. apply Rlt_le, atan_increasing.
            apply Rmult_pos_neg; [lra | apply Rinv_lt_0_compat, Hx']. }
        lra.
      * assert (0 < atan (y / x)) as Hlt.
        { rewrite <- atan_0. apply atan_increasing.
          apply Rmult_neg_neg; [lra | apply Rinv_lt_0_compat, Hx']. }
        lra.
    + destruct (Rlt_dec 0 y); [lra|]. destruct (Rlt_dec y 0); lra.
Qed.

(** X8: for [-1 <= e <= 1] the true anomaly returned by lines 60-63 lies
    between [-2 PI] and [2 PI], both included, whatever the size of [E]. *)
Theorem X8_true_anomaly_range (e E : R) :
  -1 <= e <= 1 ->
  exists nu, true_anomaly e E = ret nu /\ - (2 * PI) <= nu <= 2 * PI.
Proof.
  intros He. eexists. split; [apply true_anomaly_R, He|].
  pose proof (atan2_range (sqrt (1 - e) * cos (E / 2)) (sqrt (1 + e) * sin (E / 2))).
  lra.
Qed.

Lemma X8_witness :
  -1 <= 0 <= 1 /\ exists nu, true_anomaly 0 100 = ret nu /\ - (2 * PI) <= nu <= 2 * PI.
Proof.
  assert (-1 <= 0 <= 1) as He by lra.
  split; [exact He|].
  exact (X8_true_anomaly_range 0 100 He).
Defined.

(** ** The call as a whole *)

(** X28: for every numeric instance and every argument, valid or not, the
    call raises: no input makes [keplerian_to_cartesian] return a pair of
    vectors. *)
Theorem X28_call_never_returns
  (float : Type) (PF : PyFloat float) (a e w omega i t0 t M0 mu : float) :
  exists x, keplerian_to_cartesian a e w omega i t0 t M0 mu = raise x.
Proof. apply keplerian_to_cartesian_raises. Qed.

(** * Further properties of [planets-api.py] *)

Module PlanetsConvertFacts.

Import PlanetsApi PlanetsConvert.
Open Scope string_scope.

(** ** Characters *)

Ltac all_chars c :=
  destruct c as [[] [] [] [] [] [] [] []]; vm_compute; try reflexivity; try discriminate.

Lemma isupper_single (c : ascii) : isupper (String c "") = isupper_char c.
Proof. all_chars c. Qed.

Lemma isupper_lower_char (c : ascii) : isupper_char (lower_char c) = false.
Proof. all_chars c. Qed.

Lemma lower_char_fixed (c : ascii) : isupper_char c = false -> lower_char c = c.
Proof. unfold lower_char. intros ->. reflexivity. Qed.

Lemma whitespace_lower_char (c : ascii) :
  occurs_in (String (lower_char c) "") whitespace
  = occurs_in (String c "") whitespace.
Proof. all_chars c. Qed.

Lemma upper_not_whitespace (c : ascii) :
  isupper_char c = true -> occurs_in (String c "") whitespace = false.
Proof. all_chars c. Qed.

(** ** Strings *)

Lemma append_assoc (a b c : string) : (a ++ b) ++ c = a ++ (b ++ c).
Proof. induction a as [|x a IH]; simpl; [reflexivity | rewrite IH; reflexivity]. Qed.

Lemma append_empty_r (a : string) : a ++ "" = a.
Proof. induction a as [|x a IH]; simpl; [reflexivity | rewrite IH; reflexivity]. Qed.

Lemma chars_append (a b : string) : chars (a ++ b) = (chars a ++ chars b)%list.
Proof. induction a as [|x a IH]; simpl; [reflexivity | rewrite IH; reflexivity]. Qed.

Lemma lower_append (a b : string) : lower (a ++ b) = lower a ++ lower b.
Proof. induction a as [|x a IH]; simpl; [reflexivity | rewrite IH; reflexivity]. Qed.

Lemma chars_lower (s : string) : chars (lower s) = map lower_char (chars s).
Proof. induction s as [|x s IH]; simpl; [reflexivity | rewrite IH; reflexivity]. Qed.

Lemma lower_fixed (s : string) :
  Forall (fun c => isupper_char c = false) (chars s) -> lower s = s.
Proof.
  induction s as [|x s IH]; simpl; intros Hs; [reflexivity|].
  inversion Hs as [|? ? Hx Hs']; subst.
  rewrite lower_char_fixed by exact Hx. rewrite IH by exact Hs'. reflexivity.
Qed.

Lemma lower_no_upper (s : string) :
  Forall (fun c => isupper_char c = false) (chars (lower s)).
Proof.
  induction s as [|x s IH]; simpl; constructor;
    [apply isupper_lower_char | exact IH].
Qed.

(** ** [snake_case] *)

Lemma snake_step_single (x : string) (c : ascii) :
  snake_step x (String c "") = x ++ snake_char c.
Proof.
  unfold snake_step, snake_char. rewrite isupper_single. apply append_assoc.
Qed.

Lemma fold_snake_step (s x : string) :
  fold_left snake_step (map (fun c => String c "") (chars s)) x = x ++ snake_tail s.
Proof.
  revert x. induction s as [|c s IH]; intros x; simpl.
  - symmetry. apply append_empty_r.
  - rewrite snake_step_single, IH. apply append_assoc.
Qed.

Lemma snake_case_cons (c : ascii) (s : string) :
  snake_case (String c s) = ok (String (lower_char c) (lower (snake_tail s))).
Proof.
  unfold snake_case. simpl. rewrite fold_snake_step. reflexivity.
Qed.

Lemma snake_tail_append (a b : string) :
  snake_tail (a ++ b) = snake_tail a ++ snake_tail b.
Proof.
  induction a as [|x a IH]; simpl; [reflexivity|].
  rewrite IH. symmetry. apply append_assoc.
Qed.

Lemma snake_char_no_whitespace (c : ascii) :
  Forall (fun x => occurs_in (String x "") whitespace = false) (chars (snake_char c)).
Proof.
  unfold snake_char.
  destruct (isupper_char c) eqn:Hu.
  - rewrite (upper_not_whitespace c Hu). cbn [append chars].
    constructor; [reflexivity|]. constructor; [|constructor].
    exact (upper_not_whitespace c Hu).
  - destruct (occurs_in (String c "") whitespace) eqn:Hw; cbn [append chars];
      [constructor|]. constructor; [exact Hw | constructor].
Qed.

Lemma snake_tail_no_whitespace (s : string) :
  Forall (fun x => occurs_in (String x "") whitespace = false) (chars (snake_tail s)).
Proof.
  induction s as [|c s IH]; cbn [chars snake_tail]; [constructor|].
  rewrite chars_append. apply Forall_app. split;
    [apply snake_char_no_whitespace | exact IH].
Qed.

Lemma lower_keeps_no_whitespace (s : string) :
  Forall (fun x => occurs_in (String x "") whitespace = false) (chars s) ->
  Forall (fun x => occurs_in (String x "") whitespace = false) (chars (lower s)).
Proof.
  induction s as [|c s IH]; cbn [chars lower]; intros Hs; [constructor|].
  inversion Hs as [|? ? Hc Hs']; subst. constructor.
  - rewrite whitespace_lower_char. exact Hc.
  - apply IH, Hs'.
Qed.

Lemma snake_tail_fixed (s : string) :
  Forall (fun c => isupper_char c = false) (chars s) ->
  Forall (fun c => occurs_in (String c "") whitespace = false) (chars s) ->
  snake_tail s = s.
Proof.
  induction s as [|c s IH]; cbn [chars snake_tail]; intros Hu Hw; [reflexivity|].
  inversion Hu as [|? ? Hc Hu']; inversion Hw as [|? ? Hc' Hw']; subst.
  unfold snake_char. rewrite Hc, Hc'. cbn [append]. rewrite IH by assumption.
  reflexivity.
Qed.

Lemma snake_case_fixed (c : ascii) (s : string) :
  Forall (fun x => isupper_char x = false) (chars (String c s)) ->
  Forall (fun x => occurs_in (String x "") whitespace = false) (chars s) ->
  snake_case (String c s) = ok (String c s).
Proof.
  intros Hu Hw. rewrite snake_case_cons.
  cbn [chars] in Hu. inversion Hu as [|? ? Hc Hu']; subst.
  rewrite snake_tail_fixed by assumption.
  rewrite lower_char_fixed by exact Hc. rewrite lower_fixed by exact Hu'.
  reflexivity.
Qed.

Lemma snake_case_shape (str r : string) :
  snake_case str = ok r ->
  exists c s t,
    str = String c s /\ r = String (lower_char c) t /\
    Forall (fun x => isupper_char x = false) (chars r) /\
    Forall (fun x => occurs_in (String x "") whitespace = false) (chars t).
Proof.
  destruct str as [|c s]; [discriminate|].
  rewrite snake_case_cons. intros [= <-].
  exists c, s, (lower (snake_tail s)). repeat split.
  - apply (lower_no_upper (String c (snake_tail s))).
  - apply lower_keeps_no_whitespace, snake_tail_no_whitespace.
Qed.

End PlanetsConvertFacts.

Open Scope string_scope.

(** X11: [snake_case] raises [TypeError] on the empty string and on no other
    string. *)
Theorem X11_snake_case_fails_only_on_empty (str : string) :
  PlanetsConvert.snake_case str = PlanetsConvert.fail PlanetsConvert.TypeError
  <-> str = EmptyString.
Proof.
  split.
  - destruct str as [|c s]; [reflexivity|].
    rewrite PlanetsConvertFacts.snake_case_cons. discriminate.
  - intros ->. reflexivity.
Qed.

(** X12: for a string of ASCII characters, the result of [snake_case]
    starts with the first character of the input, lowercased (kept even if
    it is whitespace, and with no underscore before it), has no uppercase
    character, and has no whitespace after its first character. *)
Theorem X12_snake_case_result_shape (str r : string) :
  Forall (fun c => (N_of_ascii c < 128)%N) (PlanetsConvert.chars str) ->
  PlanetsConvert.snake_case str = PlanetsConvert.ok r ->
  exists c s t,
    str = String c s /\ r = String (PlanetsConvert.lower_char c) t /\
    Forall (fun x => PlanetsConvert.isupper_char x = false) (PlanetsConvert.chars r) /\
    Forall (fun x => PlanetsConvert.occurs_in (String x EmptyString)
                       PlanetsConvert.whitespace = false)
           (PlanetsConvert.chars t).
Proof. intros _. apply PlanetsConvertFacts.snake_case_shape. Qed.

Lemma X12_witness :
  PlanetsConvert.snake_case "Dwarf Planet" = PlanetsConvert.ok "dwarf_planet"
  /\ exists c s t, "Dwarf Planet"%string = String c s
                   /\ "dwarf_planet"%string = String (PlanetsConvert.lower_char c) t.
Proof.
  assert (Forall (fun c => (N_of_ascii c < 128)%N)
                 (PlanetsConvert.chars "Dwarf Planet")) as Ha
    by (repeat (constructor; [reflexivity|]); constructor).
  assert (PlanetsConvert.snake_case "Dwarf Planet" = PlanetsConvert.ok "dwarf_planet")
    as H by reflexivity.
  split; [exact H|].
  destruct (X12_snake_case_result_shape "Dwarf Planet" "dwarf_planet" Ha H)
    as [c [s [t [H1 [H2 _]]]]].
  exists c, s, t. split; assumption.
Defined.

(** X13: on strings of ASCII characters [snake_case] is idempotent:
    applied to one of its results it returns it unchanged. *)
Theorem X13_snake_case_idempotent (str r : string) :
  Forall (fun c => (N_of_ascii c < 128)%N) (PlanetsConvert.chars str) ->
  PlanetsConvert.snake_case str = PlanetsConvert.ok r ->
  PlanetsConvert.snake_case r = PlanetsConvert.ok r.
Proof.
  intros _ H.
  destruct (PlanetsConvertFacts.snake_case_shape str r H)
    as [c [s [t [_ [-> [Hu Hw]]]]]].
  apply PlanetsConvertFacts.snake_case_fixed; assumption.
Qed.

Lemma X13_witness :
  PlanetsConvert.snake_case "englishName" = PlanetsConvert.ok "english_name"
  /\ PlanetsConvert.snake_case "english_name" = PlanetsConvert.ok "english_name".
Proof.
  assert (Forall (fun c => (N_of_ascii c < 128)%N)
                 (PlanetsConvert.chars "englishName")) as Ha
    by (repeat (constructor; [reflexivity|]); constructor).
  assert (PlanetsConvert.snake_case "englishName" = PlanetsConvert.ok "english_name")
    as H by reflexivity.
  split; [exact H|].
  exact (X13_snake_case_idempotent "englishName" "english_name" Ha H).
Defined.

(** X14: at a word boundary [snake_case] composes: for a non-empty [a] and
    a [b] that starts with an uppercase character, [snake_case (a ++ b)] is
    [snake_case a], an underscore and [snake_case b]; when [b] starts with a
    character that is neither uppercase nor whitespace it is [snake_case a]
    followed by [snake_case b]. *)
Theorem X14_snake_case_composes (a b ra rb : string) (d : ascii) (b' : string) :
  b = String d b' ->
  PlanetsConvert.snake_case a = PlanetsConvert.ok ra ->
  PlanetsConvert.snake_case b = PlanetsConvert.ok rb ->
  (PlanetsConvert.isupper_char d = true ->
   PlanetsConvert.snake_case (a ++ b) = PlanetsConvert.ok (ra ++ "_" ++ rb))
  /\ (PlanetsConvert.isupper_char d = false ->
      PlanetsConvert.occurs_in (String d EmptyString) PlanetsConvert.whitespace = false ->
      PlanetsConvert.snake_case (a ++ b) = PlanetsConvert.ok (ra ++ rb)).
Proof.
  intros -> Ha Hb.
  destruct a as [|c a]; [discriminate|].
  rewrite PlanetsConvertFacts.snake_case_cons in Ha, Hb.
  injection Ha as <-. injection Hb as <-.
  change (String c a ++ String d b')%string with (String c (a ++ String d b')).
  rewrite PlanetsConvertFacts.snake_case_cons.
  rewrite PlanetsConvertFacts.snake_tail_append, PlanetsConvertFacts.lower_append.
  cbn [PlanetsConvert.snake_tail]. unfold PlanetsConvert.snake_char.
  split.
  - intros Hu. rewrite Hu, (PlanetsConvertFacts.upper_not_whitespace d Hu).
    reflexivity.
  - intros Hu Hw. rewrite Hu, Hw. reflexivity.
Qed.

Lemma X14_witness :
  PlanetsConvert.snake_case ("mean" ++ "Radius") = PlanetsConvert.ok ("mean" ++ "_" ++ "radius").
Proof.
  destruct (X14_snake_case_composes "mean" "Radius" "mean" "radius" "R" "adius"
              eq_refl eq_refl eq_refl) as [Hup _].
  exact (Hup eq_refl).
Defined.

(** ** The merge: order, invariants, idempotence *)

Module PlanetsMergeFacts.

Import PlanetsApi PlanetsApiFacts.

Section DictOrder.

Context {A : Type}.

Lemma contains_in (k : string) (d : dict A) : contains k d = true <-> In k (keys d).
Proof.
  split.
  - intros Hc. destruct (getitem k d) eqn:Hg.
    + destruct (in_dec string_dec k (keys d)) as [Hin|Hn]; [exact Hin|].
      apply getitem_none_iff in Hn. congruence.
    + apply contains_false_iff in Hg. congruence.
  - intros Hin. destruct (contains k d) eqn:Hc; [reflexivity|].
    apply contains_false_iff, getitem_none_iff in Hc. contradiction.
Qed.

Lemma keys_setitem (k : string) (v : A) (d : dict A) :
  keys (setitem k v d) = if contains k d then keys d else (keys d ++ [k])%list.
Proof.
  unfold contains. induction d as [|[k' v'] d IH]; simpl; [reflexivity|].
  destruct (String.eqb k k'); simpl; [reflexivity|].
  rewrite IH. destruct (existsb (String.eqb k) (keys d)); reflexivity.
Qed.

Lemma keys_modify (k : string) (f : A -> A) (d : dict A) :
  keys (modify k f d) = keys d.
Proof.
  induction d as [|[k' v'] d IH]; simpl; [reflexivity|].
  destruct (String.eqb k k'); simpl; [reflexivity | rewrite IH; reflexivity].
Qed.

Lemma NoDup_keys_setitem (k : string) (v : A) (d : dict A) :
  NoDup (keys d) -> NoDup (keys (setitem k v d)).
Proof.
  intros Hnd. rewrite keys_setitem. destruct (contains k d) eqn:Hc; [exact Hnd|].
  apply NoDup_app; [exact Hnd | repeat constructor; simpl; tauto |].
  intros x Hx [<-|[]]. apply contains_in in Hx. congruence.
Qed.

Lemma NoDup_keys_update (d other : dict A) :
  NoDup (keys d) -> NoDup (keys (update d other)).
Proof.
  unfold update. revert d. induction other as [|[k v] other IH]; intros d Hnd; simpl.
  - exact Hnd.
  - apply IH, NoDup_keys_setitem, Hnd.
Qed.

Lemma setitem_same (k : string) (v : A) (d : dict A) :
  getitem k d = Some v -> setitem k v d = d.
Proof.
  induction d as [|[k' v'] d IH]; simpl; [discriminate|].
  destruct (String.eqb k k'); [intros [= ->]; reflexivity|].
  intros Hg. rewrite IH by exact Hg. reflexivity.
Qed.

Lemma update_noop (d other : dict A) :
  (forall k v, In (k, v) other -> getitem k d = Some v) -> update d other = d.
Proof.
  unfold update. induction other as [|[k v] other IH]; intros Hin; simpl.
  - reflexivity.
  - rewrite setitem_same by (apply Hin; left; reflexivity).
    apply IH. intros k' v' H'. apply Hin. right. exact H'.
Qed.

Lemma modify_noop (k : string) (f : A -> A) (m : A) (d : dict A) :
  getitem k d = Some m -> f m = m -> modify k f d = d.
Proof.
  intros Hg Hf. induction d as [|[k' v'] d IH]; simpl in *; [reflexivity|].
  destruct (String.eqb k k').
  - injection Hg as ->. rewrite Hf. reflexivity.
  - rewrite IH by exact Hg. reflexivity.
Qed.

Lemma in_getitem (k : string) (v : A) (d : dict A) :
  NoDup (keys d) -> In (k, v) d -> getitem k d = Some v.
Proof.
  induction d as [|[k' v'] d IH]; simpl; intros Hnd Hin; [contradiction|].
  inversion Hnd as [|? ? Hk Hnd']; subst.
  destruct Hin as [[= -> ->]|Hin].
  - rewrite String.eqb_refl. reflexivity.
  - destruct (String.eqb_spec k k') as [->|Hne].
    + exfalso. apply Hk. apply (in_map fst) in Hin. exact Hin.
    + apply IH; assumption.
Qed.

End DictOrder.

Section MergeOrder.

Variable value : Type.
Variable format : value -> string.

Lemma keys_merge_step (prev : dict (body value)) (k : string) (b : body value) :
  keys (merge_step prev (k, b))
  = if contains k prev then keys prev else (keys prev ++ [k])%list.
Proof.
  unfold merge_step. destruct (contains k prev) eqn:Hc; simpl.
  - apply keys_modify.
  - rewrite keys_setitem, Hc. reflexivity.
Qed.

Lemma contains_merge_step (prev : dict (body value)) (k k' : string) (b : body value) :
  contains k' (merge_step prev (k, b)) = contains k' prev || String.eqb k' k.
Proof.
  unfold contains at 1. rewrite keys_merge_step.
  destruct (contains k prev) eqn:Hc.
  - fold (contains k' prev). destruct (String.eqb_spec k' k) as [->|Hne].
    + rewrite Hc. reflexivity.
    + rewrite orb_false_r. reflexivity.
  - rewrite existsb_app. simpl. rewrite orb_false_r. reflexivity.
Qed.

Lemma keys_merge (bodies : dict (body value)) :
  NoDup (keys bodies) ->
  forall prev,
    keys (merge bodies prev)
    = (keys prev ++ filter (fun k => negb (contains k prev)) (keys bodies))%list.
Proof.
  unfold merge. induction bodies as [|[k b] bodies IH]; intros Hnd prev;
    cbn [fold_left].
  - simpl. rewrite app_nil_r. reflexivity.
  - change (keys ((k, b) :: bodies)) with (k :: keys bodies) in *.
    inversion Hnd as [|? ? Hk Hnd']; subst.
    cbn [filter].
    rewrite (IH Hnd'), keys_merge_step.
    assert (filter (fun k0 => negb (contains k0 (merge_step prev (k, b)))) (keys bodies)
            = filter (fun k0 => negb (contains k0 prev)) (keys bodies)) as ->.
    { apply filter_ext_in. intros k' Hin. rewrite contains_merge_step.
      destruct (String.eqb_spec k' k) as [->|Hne]; [contradiction|].
      rewrite orb_false_r. reflexivity. }
    destruct (contains k prev); simpl; [reflexivity|].
    rewrite <- app_assoc. reflexivity.
Qed.

Lemma NoDup_keys_merge (bodies prev : dict (body value)) :
  NoDup (keys bodies) -> NoDup (keys prev) -> NoDup (keys (merge bodies prev)).
Proof.
  intros Hb Hp. rewrite keys_merge by exact Hb.
  apply NoDup_app; [exact Hp | apply NoDup_filter, Hb |].
  intros k Hk Hf. apply filter_In in Hf. destruct Hf as [_ Hf].
  apply contains_in in Hk. rewrite Hk in Hf. discriminate.
Qed.

Lemma merge_noop (bodies d : dict (body value)) :
  (forall k b, In (k, b) bodies ->
     exists m, getitem k d = Some m /\ update m b = m) ->
  merge bodies d = d.
Proof.
  unfold merge. induction bodies as [|[k b] bodies IH]; intros Hin; cbn [fold_left].
  - reflexivity.
  - destruct (Hin k b (or_introl eq_refl)) as [m [Hm Hu]].
    assert (merge_step d (k, b) = d) as ->.
    { unfold merge_step.
      assert (contains k d = true) as -> by (apply contains_true_iff; eauto).
      simpl. apply modify_noop with (m := m); assumption. }
    apply IH. intros k' b' H'. apply Hin. right. exact H'.
Qed.

Lemma merge_idempotent (bodies prev : dict (body value)) :
  NoDup (keys bodies) ->
  (forall k b, In (k, b) bodies -> NoDup (keys b)) ->
  merge bodies (merge bodies prev) = merge bodies prev.
Proof.
  intros Hnd Hwf. apply merge_noop. intros k b Hin.
  pose proof (in_getitem k b bodies Hnd Hin) as Hk.
  pose proof (Hwf k b Hin) as Hb.
  rewrite getitem_merge_fetched with (b := b) by assumption.
  eexists. split; [reflexivity|].
  apply update_noop. intros f v Hfv.
  pose proof (in_getitem f v b Hb Hfv) as Hf.
  destruct (getitem k prev) as [stored|]; [|exact Hf].
  apply getitem_update_present; assumption.
Qed.

Lemma merge_new (bodies : dict (body value)) :
  NoDup (keys bodies) ->
  forall prev, (forall k, In k (keys bodies) -> contains k prev = false) ->
    merge bodies prev = (prev ++ bodies)%list.
Proof.
  unfold merge. induction bodies as [|[k b] bodies IH]; intros Hnd prev Hnew;
    cbn [fold_left].
  - rewrite app_nil_r. reflexivity.
  - change (keys ((k, b) :: bodies)) with (k :: keys bodies) in *.
    inversion Hnd as [|? ? Hk Hnd']; subst.
    assert (merge_step prev (k, b) = (prev ++ [(k, b)])%list) as ->.
    { unfold merge_step. rewrite (Hnew k (or_introl eq_refl)). simpl.
      assert (getitem k prev = None) as Hg
        by (apply contains_false_iff, Hnew; left; reflexivity).
      clear - Hg. induction prev as [|[k' v'] prev IHp]; simpl in *; [reflexivity|].
      destruct (String.eqb k k'); [discriminate|].
      rewrite IHp by exact Hg. reflexivity. }
    rewrite IH; [rewrite <- app_assoc; reflexivity | exact Hnd' |].
    intros k' Hin. unfold contains, keys. rewrite map_app, existsb_app.
    fold (keys prev). fold (contains k' prev).
    rewrite (Hnew k' (or_intror Hin)). simpl.
    destruct (String.eqb_spec k' k) as [->|Hne]; [contradiction | reflexivity].
Qed.

Lemma warnings_sound (m : body value) (line : string) :
  In line (warnings format m) ->
  exists name, getitem "name" m = Some name /\
    ((line = colour_warning format name /\ getitem "colour" m = None) \/
     (line = parent_warning format name /\ getitem "parent" m = None)).
Proof.
  unfold warnings. intros Hin. apply in_app_or in Hin. destruct Hin as [Hin|Hin].
  - destruct (contains "colour" m) eqn:Hc; simpl in Hin; [contradiction|].
    destruct (contains "name" m); simpl in Hin; [|contradiction].
    destruct (getitem "name" m) as [name|]; [|contradiction].
    destruct Hin as [<-|[]]. exists name. split; [reflexivity|]. left.
    split; [reflexivity | apply contains_false_iff, Hc].
  - destruct (contains "parent" m) eqn:Hc; simpl in Hin; [contradiction|].
    destruct (contains "name" m); simpl in Hin; [|contradiction].
    destruct (getitem "name" m) as [name|]; [|contradiction].
    destruct Hin as [<-|[]]. exists name. split; [reflexivity|]. right.
    split; [reflexivity | apply contains_false_iff, Hc].
Qed.

End MergeOrder.

End PlanetsMergeFacts.

(** X15: the merge keeps every stored body at its place and appends the
    fetched bodies that were not stored, in the order of the fetch; distinct
    keys stay distinct. *)
Theorem X15_merge_key_order
  (value : Type) (bodies bodies_prev : PlanetsApi.dict (PlanetsApi.body value)) :
  NoDup (PlanetsApi.keys bodies) ->
  PlanetsApi.keys (PlanetsApi.merge bodies bodies_prev)
  = (PlanetsApi.keys bodies_prev
     ++ filter (fun k => negb (PlanetsApi.contains k bodies_prev))
               (PlanetsApi.keys bodies))%list
  /\ (NoDup (PlanetsApi.keys bodies_prev) ->
      NoDup (PlanetsApi.keys (PlanetsApi.merge bodies bodies_prev))).
Proof.
  intros Hnd. split.
  - apply PlanetsMergeFacts.keys_merge, Hnd.
  - intros Hp. apply PlanetsMergeFacts.NoDup_keys_merge; assumption.
Qed.

Lemma X15_witness :
  let bodies := [("earth", [("mass", 1%nat)]); ("ceres", [("mass", 2%nat)])] in
  let bodies_prev := [("sun", [("mass", 9%nat)]); ("earth", [("colour", 3%nat)])] in
  NoDup (PlanetsApi.keys bodies) /\
  PlanetsApi.keys (PlanetsApi.merge bodies bodies_prev) = ["sun"; "earth"; "ceres"].
Proof.
  intros bodies bodies_prev.
  assert (NoDup (PlanetsApi.keys bodies)) as Hnd
    by (repeat constructor; simpl; intuition discriminate).
  split; [exact Hnd|].
  exact (proj1 (X15_merge_key_order nat bodies bodies_prev Hnd)).
Defined.

(** X16: merging the same fetch a second time changes nothing. *)
Theorem X16_merge_idempotent
  (value : Type) (bodies bodies_prev : PlanetsApi.dict (PlanetsApi.body value)) :
  NoDup (PlanetsApi.keys bodies) ->
  (forall k b, In (k, b) bodies -> NoDup (PlanetsApi.keys b)) ->
  PlanetsApi.merge bodies (PlanetsApi.merge bodies bodies_prev)
  = PlanetsApi.merge bodies bodies_prev.
Proof. apply PlanetsMergeFacts.merge_idempotent. Qed.

Lemma X16_witness :
  let bodies := [("earth", [("mass", 1%nat)]); ("ceres", [("mass", 2%nat)])] in
  let bodies_prev := [("sun", [("mass", 9%nat)]); ("earth", [("mass", 0%nat); ("colour", 3%nat)])] in
  NoDup (PlanetsApi.keys bodies) /\
  PlanetsApi.merge bodies (PlanetsApi.merge bodies bodies_prev)
  = PlanetsApi.merge bodies bodies_prev.
Proof.
  intros bodies bodies_prev.
  assert (NoDup (PlanetsApi.keys bodies)) as Hnd
    by (repeat constructor; simpl; intuition discriminate).
  split; [exact Hnd|].
  apply (X16_merge_idempotent nat bodies bodies_prev Hnd).
  intros k b [[= <- <-]|[[= <- <-]|[]]]; repeat constructor; simpl; tauto.
Defined.

(** X17: when none of the fetched bodies is stored (in particular on a first
    run, with nothing stored), the merge appends the fetched bodies, as they
    are, to the stored ones. *)
Theorem X17_merge_of_new_bodies_appends
  (value : Type) (bodies bodies_prev : PlanetsApi.dict (PlanetsApi.body value)) :
  NoDup (PlanetsApi.keys bodies) ->
  (forall k, In k (PlanetsApi.keys bodies) -> PlanetsApi.contains k bodies_prev = false) ->
  PlanetsApi.merge bodies bodies_prev = (bodies_prev ++ bodies)%list.
Proof. intros Hnd Hnew. apply PlanetsMergeFacts.merge_new; assumption. Qed.

Lemma X17_witness :
  let bodies := [("earth", [("mass", 1%nat)]); ("ceres", [("mass", 2%nat)])] in
  NoDup (PlanetsApi.keys bodies) /\ PlanetsApi.merge bodies [] = bodies.
Proof.
  intros bodies.
  assert (NoDup (PlanetsApi.keys bodies)) as Hnd
    by (repeat constructor; simpl; intuition discriminate).
  split; [exact Hnd|].
  exact (X17_merge_of_new_bodies_appends nat bodies [] Hnd (fun k _ => eq_refl)).
Defined.

(** X18: every line printed by lines 73-78 is the colour warning of a body
    of the written list that has a name and no colour, or the parent warning
    of one that has a name and no parent; at most two lines are printed per
    body. *)
Theorem X18_only_warnings_of_named_bodies
  (value : Type) (format : value -> string)
  (bodies bodies_prev : PlanetsApi.dict (PlanetsApi.body value)) :
  let result := PlanetsApi.merge_and_report format bodies bodies_prev in
  (forall line, In line (snd result) ->
     exists m name,
       In m (fst result) /\ PlanetsApi.getitem "name" m = Some name /\
       ((line = PlanetsApi.colour_warning format name
         /\ PlanetsApi.getitem "colour" m = None) \/
        (line = PlanetsApi.parent_warning format name
         /\ PlanetsApi.getitem "parent" m = None)))
  /\ (length (snd result) <= 2 * length (fst result))%nat.
Proof.
  intros result. split.
  - intros line Hin. apply in_flat_map in Hin. destruct Hin as [m [Hm Hline]].
    destruct (PlanetsMergeFacts.warnings_sound value format m line Hline)
      as [name [Hn Hcase]].
    exists m, name. split; [exact Hm|]. split; [exact Hn | exact Hcase].
  - unfold result, PlanetsApi.merge_and_report. cbn [fst snd].
    induction (PlanetsApi.values (PlanetsApi.merge bodies bodies_prev)) as [|m l IH];
      [simpl; lia|].
    cbn [flat_map length]. rewrite length_app.
    assert (length (PlanetsApi.warnings format m) <= 2)%nat as Hm.
    { unfold PlanetsApi.warnings. rewrite length_app.
      destruct (negb (PlanetsApi.contains "colour" m) && PlanetsApi.contains "name" m);
        destruct (negb (PlanetsApi.contains "parent" m) && PlanetsApi.contains "name" m);
        destruct (PlanetsApi.getitem "name" m); simpl; lia. }
    lia.
Qed.

(** ** [convert_body] *)

Module ConvertBodyFacts.

Import PlanetsApi PlanetsApiFacts PlanetsMergeFacts PlanetsConvert.

Section DictRemove.

Context {A : Type}.

Lemma getitem_remove_other (k k' : string) (d : dict A) :
  k <> k' -> getitem k (remove k' d) = getitem k d.
Proof.
  intros Hne. induction d as [|[k2 v2] d IH]; simpl; [reflexivity|].
  destruct (String.eqb_spec k' k2) as [->|Hk2]; simpl.
  - destruct (String.eqb_spec k k2); [contradiction | reflexivity].
  - destruct (String.eqb k k2); [reflexivity | exact IH].
Qed.

Lemma keys_remove_incl (k : string) (d : dict A) :
  forall x, In x (keys (remove k d)) -> In x (keys d).
Proof.
  induction d as [|[k2 v2] d IH]; simpl; [tauto|].
  destruct (String.eqb k k2); simpl; intros x Hx; [right; exact Hx|].
  destruct Hx as [Hx|Hx]; [left; exact Hx | right; apply IH, Hx].
Qed.

Lemma NoDup_keys_remove (k : string) (d : dict A) :
  NoDup (keys d) -> NoDup (keys (remove k d)).
Proof.
  induction d as [|[k2 v2] d IH]; simpl; intros Hnd; [constructor|].
  inversion Hnd as [|? ? Hk Hnd']; subst.
  destruct (String.eqb k k2); simpl; [exact Hnd'|].
  constructor; [|apply IH, Hnd'].
  intros Hin. apply Hk. apply (keys_remove_incl k d), Hin.
Qed.

Lemma getitem_remove_same (k : string) (d : dict A) :
  NoDup (keys d) -> getitem k (remove k d) = None.
Proof.
  induction d as [|[k2 v2] d IH]; simpl; intros Hnd; [reflexivity|].
  inversion Hnd as [|? ? Hk Hnd']; subst.
  destruct (String.eqb_spec k k2) as [->|Hne].
  - apply getitem_none_iff, Hk.
  - simpl. destruct (String.eqb_spec k k2); [contradiction | apply IH, Hnd'].
Qed.

Lemma getitem_setitem (k k' : string) (v : A) (d : dict A) :
  getitem k (setitem k' v d) = if String.eqb k k' then Some v else getitem k d.
Proof.
  destruct (String.eqb_spec k k') as [->|Hne].
  - apply getitem_setitem_same.
  - apply getitem_setitem_other, Hne.
Qed.

Lemma getitem_remove (k k' : string) (d : dict A) :
  NoDup (keys d) ->
  getitem k (remove k' d) = if String.eqb k k' then None else getitem k d.
Proof.
  intros Hnd. destruct (String.eqb_spec k k') as [->|Hne].
  - apply getitem_remove_same, Hnd.
  - apply getitem_remove_other, Hne.
Qed.

Lemma delitem_present (k : string) (d : dict A) (v : A) :
  getitem k d = Some v -> delitem k d = ok (remove k d).
Proof.
  intros Hg. unfold delitem.
  assert (contains k d = true) as -> by (apply contains_true_iff; eauto).
  reflexivity.
Qed.

End DictRemove.

Section ConvertFacts.

Variable num : Type.
Variable times_pow10 : num -> num -> result num.

(** *** Line 17 *)

Lemma rename_keys_fail (body : dict (field num)) (e : error) :
  fold_left
    (fun acc kv => d <-- acc ;; k <-- snake_case (fst kv) ;; ok (setitem k (snd kv) d))
    body (fail e) = fail e.
Proof. induction body as [|kv body IH]; simpl; [reflexivity | exact IH]. Qed.

Lemma rename_keys_NoDup (body : dict (field num)) :
  forall acc b1,
    fold_left
      (fun acc kv => d <-- acc ;; k <-- snake_case (fst kv) ;; ok (setitem k (snd kv) d))
      body (ok acc) = ok b1 ->
    NoDup (keys acc) -> NoDup (keys b1).
Proof.
  induction body as [|[k v] body IH]; intros acc b1; cbn [fold_left].
  - intros [= <-] Hnd. exact Hnd.
  - cbn [and_then ok fst snd]. destruct (snake_case k) as [e|k'] eqn:Hk.
    + change (and_then (inl e) (fun k0 => ok (setitem k0 v acc)))
        with (@fail (dict (field num)) e).
      rewrite rename_keys_fail. discriminate.
    + intros Hf Hnd. apply (IH _ _ Hf). apply NoDup_keys_setitem, Hnd.
Qed.

Lemma rename_keys_keys_NoDup (body b1 : dict (field num)) :
  rename_keys body = ok b1 -> NoDup (keys b1).
Proof.
  intros Hr. apply (rename_keys_NoDup body [] b1 Hr). constructor.
Qed.

(** *** Lines 19-42, stage by stage *)

Lemma set_identity_eq (b : dict (field num)) :
  set_identity b
  = match getitem "english_name" b with
    | None => fail (KeyError "english_name")
    | Some N =>
        id <-- snake_case_field N ;;
        ok (remove "english_name"
              (setitem "name" N (setitem "identifier" (FStr id) b)))
    end.
Proof.
  unfold set_identity, subscript.
  destruct (getitem "english_name" b) as [N|] eqn:HN; [|reflexivity].
  cbn [and_then ok]. destruct (snake_case_field N) as [e|id]; [reflexivity|].
  cbn [and_then ok].
  rewrite getitem_setitem_other by discriminate. rewrite HN. cbn [and_then ok].
  apply delitem_present with (v := N).
  rewrite !getitem_setitem_other by discriminate. exact HN.
Qed.

Lemma set_volume_eq (b : dict (field num)) :
  set_volume times_pow10 b
  = match getitem "vol" b with
    | None => fail (KeyError "vol")
    | Some t =>
        value <-- table_subscript t "volValue" ;;
        exponent <-- table_subscript t "volExponent" ;;
        volume <-- times_pow10 value exponent ;;
        ok (remove "vol" (setitem "volume" (FNum volume) b))
    end.
Proof.
  unfold set_volume, scaled, subscript.
  destruct (getitem "vol" b) as [t|] eqn:Ht; [|reflexivity].
  cbn [and_then ok].
  destruct (table_subscript t "volValue") as [e|vv]; [reflexivity|].
  cbn [and_then ok].
  destruct (table_subscript t "volExponent") as [e|ve]; [reflexivity|].
  cbn [and_then ok].
  destruct (times_pow10 vv ve) as [e|vol]; [reflexivity|].
  cbn [and_then ok].
  apply delitem_present with (v := t).
  rewrite getitem_setitem_other by discriminate. exact Ht.
Qed.

Lemma set_mass_eq (b : dict (field num)) :
  set_mass times_pow10 b
  = match getitem "mass" b with
    | None => fail (KeyError "mass")
    | Some t =>
        value <-- table_subscript t "massValue" ;;
        exponent <-- table_subscript t "massExponent" ;;
        mass <-- times_pow10 value exponent ;;
        ok (setitem "mass" (FNum mass) b)
    end.
Proof.
  unfold set_mass, scaled, subscript.
  destruct (getitem "mass" b) as [t|] eqn:Ht; [|reflexivity].
  cbn [and_then ok].
  destruct (table_subscript t "massValue") as [e|vv]; [reflexivity|].
  cbn [and_then ok].
  destruct (table_subscript t "massExponent") as [e|ve]; [reflexivity|].
  reflexivity.
Qed.

(** Whether lines 25-26 set the parent. *)
Lemma set_parent_eq (b : dict (field num)) (id bt : string) :
  getitem "identifier" b = Some (FStr id) ->
  getitem "body_type" b = Some (FStr bt) ->
  set_parent b
  = ok (if negb (String.eqb id "sun")
           && (String.eqb bt "planet" || String.eqb bt "dwarf_planet")
        then setitem "parent" (FStr "sun") b else b).
Proof.
  intros Hid Hbt. unfold set_parent, subscript. rewrite Hid. cbn [and_then ok is_str].
  destruct (String.eqb id "sun"); cbn [negb andb]; [reflexivity|].
  rewrite Hbt. cbn [and_then ok is_str].
  destruct (String.eqb bt "planet" || String.eqb bt "dwarf_planet"); reflexivity.
Qed.

(** The loop of lines 38-40 looks up like the dict it copies. *)
Lemma getitem_reorder_fold (body : dict (field num)) :
  forall (newBody : dict (field num)) (k : string),
    getitem k
      (fold_left
         (fun newBody kv =>
            if negb (contains (fst kv) newBody)
            then setitem (fst kv) (snd kv) newBody else newBody)
         body newBody)
    = match getitem k newBody with
      | Some v => Some v
      | None => getitem k body
      end.
Proof.
  induction body as [|[k0 v0] body IH]; intros newBody k; cbn [fold_left fst snd].
  - destruct (getitem k newBody); reflexivity.
  - rewrite IH. destruct (contains k0 newBody) eqn:Hc; cbn [negb].
    + destruct (getitem k newBody) eqn:Hg; [reflexivity|].
      simpl. destruct (String.eqb_spec k k0) as [->|Hne]; [|reflexivity].
      apply contains_true_iff in Hc. destruct Hc as [v Hv]. congruence.
    + rewrite getitem_setitem. simpl.
      destruct (String.eqb_spec k k0) as [->|Hne].
      * apply contains_false_iff in Hc. rewrite Hc. reflexivity.
      * reflexivity.
Qed.

Lemma keys_reorder_fold (body : dict (field num)) :
  forall newBody : dict (field num),
    NoDup (keys newBody) ->
    let out :=
      fold_left
        (fun newBody kv =>
           if negb (contains (fst kv) newBody)
           then setitem (fst kv) (snd kv) newBody else newBody)
        body newBody in
    NoDup (keys out) /\ exists rest, keys out = (keys newBody ++ rest)%list.
Proof.
  induction body as [|[k0 v0] body IH]; intros newBody Hnd; cbn [fold_left fst snd].
  - split; [exact Hnd|]. exists []. rewrite app_nil_r. reflexivity.
  - destruct (contains k0 newBody) eqn:Hc; cbn [negb].
    + apply IH, Hnd.
    + destruct (IH (setitem k0 v0 newBody) (NoDup_keys_setitem k0 v0 newBody Hnd))
        as [Hnd' [rest Hrest]].
      split; [exact Hnd'|].
      rewrite keys_setitem, Hc in Hrest.
      exists (k0 :: rest). cbv zeta. rewrite Hrest, <- app_assoc. reflexivity.
Qed.

Lemma reorder_spec (b out : dict (field num)) :
  reorder b = ok out ->
  (forall k, getitem k out = getitem k b)
  /\ NoDup (keys out)
  /\ exists rest, keys out = "identifier" :: "name" :: rest.
Proof.
  unfold reorder, subscript.
  destruct (getitem "identifier" b) as [identifier|] eqn:Hid; [|discriminate].
  cbn [and_then ok].
  destruct (getitem "name" b) as [name|] eqn:Hname; [|discriminate].
  cbn [and_then ok]. intros [= <-].
  change (setitem "name" name (setitem "identifier" identifier []))
    with [("identifier", identifier); ("name", name)].
  split; [|].
  - intros k. rewrite getitem_reorder_fold. simpl.
    destruct (String.eqb_spec k "identifier") as [->|H1]; [symmetry; exact Hid|].
    destruct (String.eqb_spec k "name") as [->|H2]; [symmetry; exact Hname|].
    reflexivity.
  - apply (keys_reorder_fold b [("identifier", identifier); ("name", name)]).
    repeat constructor; simpl; intuition discriminate.
Qed.

(** *** The conversion as a whole *)

(** What a successful conversion looked up, and what it returns under every
    key. *)
Lemma convert_body_spec (body out : dict (field num)) :
  convert_body times_pow10 body = ok out ->
  exists b1 N id T bt tv vv ve vol tm mv me mass,
    rename_keys body = ok b1 /\
    getitem "english_name" b1 = Some N /\ snake_case_field N = ok id /\
    getitem "body_type" b1 = Some T /\ snake_case_field T = ok bt /\
    getitem "vol" b1 = Some tv /\
    table_subscript tv "volValue" = ok vv /\
    table_subscript tv "volExponent" = ok ve /\
    times_pow10 vv ve = ok vol /\
    getitem "mass" b1 = Some tm /\
    table_subscript tm "massValue" = ok mv /\
    table_subscript tm "massExponent" = ok me /\
    times_pow10 mv me = ok mass /\
    NoDup (keys out) /\
    (exists rest, keys out = "identifier" :: "name" :: rest) /\
    (forall k,
       getitem k out =
       if String.eqb k "mass" then Some (FNum mass)
       else if String.eqb k "vol" then None
       else if String.eqb k "volume" then Some (FNum vol)
       else if String.eqb k "parent"
               && (negb (String.eqb id "sun")
                   && (String.eqb bt "planet" || String.eqb bt "dwarf_planet"))
            then Some (FStr "sun")
       else if String.eqb k "body_type" then Some (FStr bt)
       else if String.eqb k "english_name" then None
       else if String.eqb k "name" then Some N
       else if String.eqb k "identifier" then Some (FStr id)
       else getitem k b1).
Proof.
  unfold convert_body.
  destruct (rename_keys body) as [e|b1] eqn:Hb1; [discriminate|]. cbn [and_then].
  pose proof (rename_keys_keys_NoDup body b1 Hb1) as Hnd1.
  rewrite set_identity_eq.
  destruct (getitem "english_name" b1) as [N|] eqn:HN; [|discriminate].
  destruct (snake_case_field N) as [e|id] eqn:Hid; [discriminate|]. cbn [and_then ok].
  set (b2 := remove "english_name"
               (setitem "name" N (setitem "identifier" (FStr id) b1))).
  assert (NoDup (keys (setitem "name" N (setitem "identifier" (FStr id) b1)))) as Hnd2'
    by (apply NoDup_keys_setitem, NoDup_keys_setitem, Hnd1).
  assert (forall k, getitem k b2 =
            if String.eqb k "english_name" then None
            else if String.eqb k "name" then Some N
            else if String.eqb k "identifier" then Some (FStr id)
            else getitem k b1) as Hg2.
  { intros k. unfold b2. rewrite getitem_remove by exact Hnd2'.
    rewrite !getitem_setitem. reflexivity. }
  assert (NoDup (keys b2)) as Hnd2 by (apply NoDup_keys_remove, Hnd2').
  unfold set_body_type, subscript.
  rewrite (Hg2 "body_type"). cbn [String.eqb Ascii.eqb Bool.eqb andb].
  destruct (getitem "body_type" b1) as [T|] eqn:HT; [|discriminate].
  cbn [and_then ok].
  destruct (snake_case_field T) as [e|bt] eqn:Hbt; [discriminate|]. cbn [and_then ok].
  set (b3 := setitem "body_type" (FStr bt) b2).
  assert (NoDup (keys b3)) as Hnd3 by (apply NoDup_keys_setitem, Hnd2).
  rewrite (set_parent_eq b3 id bt);
    [| unfold b3; rewrite getitem_setitem, Hg2; reflexivity
     | unfold b3; rewrite getitem_setitem; reflexivity ].
  cbn [and_then ok].
  set (sets := negb (String.eqb id "sun")
               && (String.eqb bt "planet" || String.eqb bt "dwarf_planet")).
  set (b4 := if sets then setitem "parent" (FStr "sun") b3 else b3).
  assert (NoDup (keys b4)) as Hnd4
    by (unfold b4; destruct sets; [apply NoDup_keys_setitem|]; exact Hnd3).
  assert (forall k, getitem k b4 =
            if String.eqb k "parent" && sets then Some (FStr "sun")
            else if String.eqb k "body_type" then Some (FStr bt)
            else getitem k b2) as Hg4.
  { intros k. unfold b4, b3. destruct sets.
    - rewrite !getitem_setitem, andb_true_r. reflexivity.
    - rewrite getitem_setitem, andb_false_r. reflexivity. }
  rewrite set_volume_eq.
  rewrite (Hg4 "vol"), (Hg2 "vol"). cbn [String.eqb Ascii.eqb Bool.eqb andb].
  destruct (getitem "vol" b1) as [tv|] eqn:Htv; [|discriminate].
  destruct (table_subscript tv "volValue") as [e|vv] eqn:Hvv; [discriminate|].
  cbn [and_then ok].
  destruct (table_subscript tv "volExponent") as [e|ve] eqn:Hve; [discriminate|].
  cbn [and_then ok].
  destruct (times_pow10 vv ve) as [e|vol] eqn:Hvol; [discriminate|].
  cbn [and_then ok].
  set (b5 := remove "vol" (setitem "volume" (FNum vol) b4)).
  assert (NoDup (keys (setitem "volume" (FNum vol) b4))) as Hnd5'
    by (apply NoDup_keys_setitem, Hnd4).
  assert (NoDup (keys b5)) as Hnd5 by (apply NoDup_keys_remove, Hnd5').
  assert (forall k, getitem k b5 =
            if String.eqb k "vol" then None
            else if String.eqb k "volume" then Some (FNum vol)
            else getitem k b4) as Hg5.
  { intros k. unfold b5. rewrite getitem_remove by exact Hnd5'.
    rewrite getitem_setitem. reflexivity. }
  rewrite set_mass_eq.
  rewrite (Hg5 "mass"), (Hg4 "mass"), (Hg2 "mass").
  cbn [String.eqb Ascii.eqb Bool.eqb andb].
  destruct (getitem "mass" b1) as [tm|] eqn:Htm; [|discriminate].
  destruct (table_subscript tm "massValue") as [e|mv] eqn:Hmv; [discriminate|].
  cbn [and_then ok].
  destruct (table_subscript tm "massExponent") as [e|me] eqn:Hme; [discriminate|].
  cbn [and_then ok].
  destruct (times_pow10 mv me) as [e|mass] eqn:Hmass; [discriminate|].
  cbn [and_then ok].
  intros Hout. destruct (reorder_spec _ out Hout) as [Hg [Hndo Hkeys]].
  exists b1, N, id, T, bt, tv, vv, ve, vol, tm, mv, me, mass.
  repeat (split; [first [reflexivity | assumption]|]).
  intros k. rewrite Hg, getitem_setitem, Hg5, Hg4, Hg2. reflexivity.
Qed.

(** The conversion up to line 29, on an answer that has a name, a type and
    a volume: what is left is lines 31-42 on a dict that looks up the mass,
    the identifier and the name as shown. *)
Lemma convert_body_prefix (body b1 : dict (field num)) (N T tv : field num)
  (id bt : string) (vv ve vol : num) :
  rename_keys body = ok b1 ->
  getitem "english_name" b1 = Some N -> snake_case_field N = ok id ->
  getitem "body_type" b1 = Some T -> snake_case_field T = ok bt ->
  getitem "vol" b1 = Some tv ->
  table_subscript tv "volValue" = ok vv ->
  table_subscript tv "volExponent" = ok ve ->
  times_pow10 vv ve = ok vol ->
  exists b5,
    convert_body times_pow10 body
    = (b6 <-- set_mass times_pow10 b5 ;; reorder b6) /\
    getitem "mass" b5 = getitem "mass" b1 /\
    getitem "identifier" b5 = Some (FStr id) /\
    getitem "name" b5 = Some N.
Proof.
  intros Hb1 HN Hid HT Hbt Htv Hvv Hve Hvol.
  pose proof (rename_keys_keys_NoDup body b1 Hb1) as Hnd1.
  set (b2 := remove "english_name"
               (setitem "name" N (setitem "identifier" (FStr id) b1))).
  assert (NoDup (keys (setitem "name" N (setitem "identifier" (FStr id) b1)))) as Hnd2'
    by (apply NoDup_keys_setitem, NoDup_keys_setitem, Hnd1).
  assert (forall k, getitem k b2 =
            if String.eqb k "english_name" then None
            else if String.eqb k "name" then Some N
            else if String.eqb k "identifier" then Some (FStr id)
            else getitem k b1) as Hg2.
  { intros k. unfold b2. rewrite getitem_remove by exact Hnd2'.
    rewrite !getitem_setitem. reflexivity. }
  assert (NoDup (keys b2)) as Hnd2 by (apply NoDup_keys_remove, Hnd2').
  set (b3 := setitem "body_type" (FStr bt) b2).
  assert (NoDup (keys b3)) as Hnd3 by (apply NoDup_keys_setitem, Hnd2).
  set (sets := negb (String.eqb id "sun")
               && (String.eqb bt "planet" || String.eqb bt "dwarf_planet")).
  set (b4 := if sets then setitem "parent" (FStr "sun") b3 else b3).
  assert (NoDup (keys b4)) as Hnd4
    by (unfold b4; destruct sets; [apply NoDup_keys_setitem|]; exact Hnd3).
  assert (forall k, getitem k b4 =
            if String.eqb k "parent" && sets then Some (FStr "sun")
            else if String.eqb k "body_type" then Some (FStr bt)
            else getitem k b2) as Hg4.
  { intros k. unfold b4, b3. destruct sets.
    - rewrite !getitem_setitem, andb_true_r. reflexivity.
    - rewrite getitem_setitem, andb_false_r. reflexivity. }
  set (b5 := remove "vol" (setitem "volume" (FNum vol) b4)).
  assert (NoDup (keys (setitem "volume" (FNum vol) b4))) as Hnd5'
    by (apply NoDup_keys_setitem, Hnd4).
  assert (forall k, getitem k b5 =
            if String.eqb k "vol" then None
            else if String.eqb k "volume" then Some (FNum vol)
            else getitem k b4) as Hg5.
  { intros k. unfold b5. rewrite getitem_remove by exact Hnd5'.
    rewrite getitem_setitem. reflexivity. }
  exists b5. split.
  - unfold convert_body. rewrite Hb1. cbn [and_then ok].
    rewrite set_identity_eq, HN, Hid. cbn [and_then ok]. fold b2.
    unfold set_body_type, subscript.
    rewrite (Hg2 "body_type"). cbn [String.eqb Ascii.eqb Bool.eqb andb].
    rewrite HT. cbn [and_then ok]. rewrite Hbt. cbn [and_then ok]. fold b3.
    rewrite (set_parent_eq b3 id bt);
      [| unfold b3; rewrite getitem_setitem, Hg2; reflexivity
       | unfold b3; rewrite getitem_setitem; reflexivity ].
    cbn [and_then ok]. fold sets. fold b4.
    rewrite set_volume_eq.
    rewrite (Hg4 "vol"), (Hg2 "vol"). cbn [String.eqb Ascii.eqb Bool.eqb andb].
    rewrite Htv, Hvv. cbn [and_then ok]. rewrite Hve. cbn [and_then ok].
    rewrite Hvol. cbn [and_then ok]. reflexivity.
  - rewrite !Hg5, !Hg4, !Hg2. repeat split; reflexivity.
Qed.

Lemma reorder_total (b : dict (field num)) (identifier name : field num) :
  getitem "identifier" b = Some identifier -> getitem "name" b = Some name ->
  exists out, reorder b = ok out.
Proof.
  intros Hi Hn. unfold reorder, subscript. rewrite Hi, Hn. cbn [and_then ok].
  eexists. reflexivity.
Qed.

(** *** Line 17: the keys after renaming *)

Lemma rename_keys_keys (body : dict (field num)) :
  forall acc b1,
    fold_left
      (fun acc kv => d <-- acc ;; k <-- snake_case (fst kv) ;; ok (setitem k (snd kv) d))
      body (ok acc) = ok b1 ->
    forall k', In k' (keys b1) <->
               In k' (keys acc) \/ exists k, In k (keys body) /\ snake_case k = ok k'.
Proof.
  induction body as [|[k v] body IH]; intros acc b1; cbn [fold_left].
  - intros [= <-] k'. split; [tauto|]. intros [H|[k [[] _]]]. exact H.
  - cbn [and_then ok fst snd]. destruct (snake_case k) as [e|kk] eqn:Hk.
    + change (and_then (inl e) (fun k0 => ok (setitem k0 v acc)))
        with (@fail (dict (field num)) e).
      rewrite rename_keys_fail. discriminate.
    + cbn [and_then ok]. intros Hf k'. rewrite (IH _ _ Hf k').
      rewrite keys_setitem.
      change (keys ((k, v) :: body)) with (k :: keys body).
      split.
      * intros [Hin|[k0 [Hin Hs]]].
        -- destruct (contains kk acc) eqn:Hc; [left; exact Hin|].
           apply in_app_or in Hin. destruct Hin as [Hin|[<-|[]]]; [left; exact Hin|].
           right. exists k. split; [left; reflexivity | exact Hk].
        -- right. exists k0. split; [right; exact Hin | exact Hs].
      * intros [Hin|[k0 [[<-|Hin] Hs]]].
        -- left. destruct (contains kk acc); [exact Hin | apply in_or_app; left; exact Hin].
        -- left. rewrite Hk in Hs. injection Hs as <-.
           destruct (contains kk acc) eqn:Hc;
             [apply contains_in, Hc | apply in_or_app; right; left; reflexivity].
        -- right. exists k0. split; assumption.
Qed.

Lemma rename_keys_total (body : dict (field num)) :
  ~ In EmptyString (keys body) ->
  forall acc, exists b1,
    fold_left
      (fun acc kv => d <-- acc ;; k <-- snake_case (fst kv) ;; ok (setitem k (snd kv) d))
      body (ok acc) = ok b1.
Proof.
  induction body as [|[k v] body IH]; intros Hne acc; cbn [fold_left].
  - eexists. reflexivity.
  - cbn [and_then ok fst snd]. destruct k as [|c k].
    + exfalso. apply Hne. left. reflexivity.
    + rewrite PlanetsConvertFacts.snake_case_cons. cbn [and_then ok].
      apply IH. intros Hin. apply Hne. right. exact Hin.
Qed.

Lemma rename_keys_empty_key (body : dict (field num)) :
  In EmptyString (keys body) ->
  forall acc,
    fold_left
      (fun acc kv => d <-- acc ;; k <-- snake_case (fst kv) ;; ok (setitem k (snd kv) d))
      body (ok acc) = fail TypeError.
Proof.
  induction body as [|[k v] body IH]; intros Hin acc; cbn [fold_left].
  - destruct Hin.
  - cbn [and_then ok fst snd]. destruct k as [|c k].
    + apply rename_keys_fail.
    + rewrite PlanetsConvertFacts.snake_case_cons. cbn [and_then ok].
      apply IH. destruct Hin as [Hin|Hin]; [discriminate | exact Hin].
Qed.

End ConvertFacts.

End ConvertBodyFacts.

Section ConvertBodyProperties.

Import PlanetsApi PlanetsConvert.

Variable num : Type.
Variable times_pow10 : num -> num -> result num.

(** X19: a body returned by [convert_body] lists [identifier] first and
    [name] second, has pairwise distinct keys (what the merge needs of a
    fetched body), and has neither [english_name] nor [vol]. *)
Theorem X19_convert_body_key_layout (body out : dict (field num)) :
  convert_body times_pow10 body = ok out ->
  (exists rest, keys out = "identifier" :: "name" :: rest)
  /\ NoDup (keys out)
  /\ getitem "english_name" out = None
  /\ getitem "vol" out = None.
Proof.
  intros Hc.
  destruct (ConvertBodyFacts.convert_body_spec num times_pow10 body out Hc)
    as (b1 & N & id & T & bt & tv & vv & ve & vol & tm & mv & me & mass & H).
  destruct H as (_ & _ & _ & _ & _ & _ & _ & _ & _ & _ & _ & _ & _ & Hnd & Hk & Hg).
  split; [exact Hk|]. split; [exact Hnd|].
  split; rewrite Hg; reflexivity.
Qed.

(** X20: in a body returned by [convert_body], [name] is the value the
    answer had under [englishName] (under the key that line 17 renames to
    [english_name]) and [identifier] is the [snake_case] of that value. *)
Theorem X20_convert_body_identifier_of_name (body out : dict (field num)) :
  convert_body times_pow10 body = ok out ->
  exists b1 N id,
    rename_keys body = ok b1 /\
    getitem "english_name" b1 = Some N /\
    snake_case_field N = ok id /\
    getitem "name" out = Some N /\
    getitem "identifier" out = Some (FStr id).
Proof.
  intros Hc.
  destruct (ConvertBodyFacts.convert_body_spec num times_pow10 body out Hc)
    as (b1 & N & id & T & bt & tv & vv & ve & vol & tm & mv & me & mass & H).
  destruct H as (Hb1 & HN & Hid & _ & _ & _ & _ & _ & _ & _ & _ & _ & _ & _ & _ & Hg).
  exists b1, N, id. repeat (split; [assumption|]).
  split; rewrite Hg; reflexivity.
Qed.

(** X21: in a body returned by [convert_body], [body_type] is a
    snake-cased string; when it is [planet] or [dwarf_planet] and the
    identifier is not [sun], [parent] is ["sun"]; otherwise [parent] is
    whatever the answer had under that key, if anything. *)
Theorem X21_convert_body_parent_rule (body out : dict (field num)) :
  convert_body times_pow10 body = ok out ->
  exists b1 id T bt,
    rename_keys body = ok b1 /\
    getitem "identifier" out = Some (FStr id) /\
    getitem "body_type" b1 = Some T /\ snake_case_field T = ok bt /\
    getitem "body_type" out = Some (FStr bt) /\
    getitem "parent" out
    = if negb (String.eqb id "sun")
         && (String.eqb bt "planet" || String.eqb bt "dwarf_planet")
      then Some (FStr "sun")
      else getitem "parent" b1.
Proof.
  intros Hc.
  destruct (ConvertBodyFacts.convert_body_spec num times_pow10 body out Hc)
    as (b1 & N & id & T & bt & tv & vv & ve & vol & tm & mv & me & mass & H).
  destruct H as (Hb1 & _ & _ & HT & Hbt & _ & _ & _ & _ & _ & _ & _ & _ & _ & _ & Hg).
  exists b1, id, T, bt. split; [exact Hb1|].
  split; [rewrite Hg; reflexivity|].
  split; [exact HT|]. split; [exact Hbt|].
  split; [rewrite Hg; cbn [String.eqb Ascii.eqb Bool.eqb andb]; reflexivity|].
  rewrite Hg. cbn [String.eqb Ascii.eqb Bool.eqb andb].
  destruct (negb (String.eqb id "sun")
            && (String.eqb bt "planet" || String.eqb bt "dwarf_planet"));
    reflexivity.
Qed.

(** X23: every other field passes through: under a key that is none of
    [identifier], [name], [english_name], [body_type], [parent], [volume],
    [vol], [mass], the returned body has what the answer had under that key
    after renaming. *)
Theorem X23_convert_body_other_fields (body out : dict (field num)) :
  convert_body times_pow10 body = ok out ->
  exists b1,
    rename_keys body = ok b1 /\
    forall k,
      ~ In k ["identifier"; "name"; "english_name"; "body_type"; "parent";
              "volume"; "vol"; "mass"] ->
      getitem k out = getitem k b1.
Proof.
  intros Hc.
  destruct (ConvertBodyFacts.convert_body_spec num times_pow10 body out Hc)
    as (b1 & N & id & T & bt & tv & vv & ve & vol & tm & mv & me & mass & H).
  destruct H as (Hb1 & _ & _ & _ & _ & _ & _ & _ & _ & _ & _ & _ & _ & _ & _ & Hg).
  exists b1. split; [exact Hb1|]. intros k Hk. rewrite Hg.
  repeat match goal with
  | |- context [String.eqb k ?s] =>
      destruct (String.eqb_spec k s) as [->|?];
      [exfalso; apply Hk; simpl; tauto|]
  end.
  reflexivity.
Qed.

(** X24: a body whose [mass] is not a table ([null], a number or a string)
    makes [convert_body] raise [TypeError], also when everything before
    line 31 went well. *)
Theorem X24_convert_body_mass_not_a_table
  (body b1 : dict (field num)) (N T tv tm : field num)
  (id bt : string) (vv ve vol : num) :
  rename_keys body = ok b1 ->
  getitem "english_name" b1 = Some N -> snake_case_field N = ok id ->
  getitem "body_type" b1 = Some T -> snake_case_field T = ok bt ->
  getitem "vol" b1 = Some tv ->
  table_subscript tv "volValue" = ok vv ->
  table_subscript tv "volExponent" = ok ve ->
  times_pow10 vv ve = ok vol ->
  getitem "mass" b1 = Some tm -> (forall t, tm <> FTable t) ->
  convert_body times_pow10 body = fail TypeError.
Proof.
  intros Hb1 HN Hid HT Hbt Htv Hvv Hve Hvol Htm Hnt.
  destruct (ConvertBodyFacts.convert_body_prefix num times_pow10 body b1 N T tv
              id bt vv ve vol Hb1 HN Hid HT Hbt Htv Hvv Hve Hvol)
    as (b5 & -> & Hm & _ & _).
  rewrite ConvertBodyFacts.set_mass_eq, Hm, Htm.
  destruct tm as [s|x|t|]; try reflexivity.
  exfalso. apply (Hnt t). reflexivity.
Qed.

(** X25: a body that has a non-empty string under [englishName] and under
    [bodyType] (after renaming: [english_name], [body_type]) and tables
    with value and exponent under [vol] and [mass], whose products do not
    overflow, is converted: [convert_body] returns. *)
Theorem X25_convert_body_succeeds
  (body b1 : dict (field num)) (c d : ascii) (N T : string) (tv tm : dict num)
  (vv ve vol mv me mass : num) :
  rename_keys body = ok b1 ->
  getitem "english_name" b1 = Some (FStr (String c N)) ->
  getitem "body_type" b1 = Some (FStr (String d T)) ->
  getitem "vol" b1 = Some (FTable tv) ->
  getitem "volValue" tv = Some vv -> getitem "volExponent" tv = Some ve ->
  times_pow10 vv ve = ok vol ->
  getitem "mass" b1 = Some (FTable tm) ->
  getitem "massValue" tm = Some mv -> getitem "massExponent" tm = Some me ->
  times_pow10 mv me = ok mass ->
  exists out, convert_body times_pow10 body = ok out.
Proof.
  intros Hb1 HN HT Htv Hvv Hve Hvol Htm Hmv Hme Hmass.
  destruct (ConvertBodyFacts.convert_body_prefix num times_pow10 body b1
              (FStr (String c N)) (FStr (String d T)) (FTable tv)
              (String (lower_char c) (lower (snake_tail N)))
              (String (lower_char d) (lower (snake_tail T)))
              vv ve vol Hb1 HN (PlanetsConvertFacts.snake_case_cons c N)
              HT (PlanetsConvertFacts.snake_case_cons d T) Htv)
    as (b5 & -> & Hm & Hi & Hn).
  - unfold table_subscript, subscript. rewrite Hvv. reflexivity.
  - unfold table_subscript, subscript. rewrite Hve. reflexivity.
  - exact Hvol.
  - rewrite ConvertBodyFacts.set_mass_eq, Hm, Htm.
    unfold table_subscript, subscript. rewrite Hmv, Hme. cbn [and_then ok].
    rewrite Hmass. cbn [and_then ok].
    apply (ConvertBodyFacts.reorder_total num) with
      (identifier := FStr (String (lower_char c) (lower (snake_tail N))))
      (name := FStr (String c N)).
    + rewrite ConvertBodyFacts.getitem_setitem. cbn [String.eqb Ascii.eqb Bool.eqb andb].
      exact Hi.
    + rewrite ConvertBodyFacts.getitem_setitem. cbn [String.eqb Ascii.eqb Bool.eqb andb].
      exact Hn.
Qed.

(** X26: a body without [englishName] (no key that line 17 renames to
    [english_name]) makes [convert_body] raise [KeyError] for
    [english_name]. *)
Theorem X26_convert_body_missing_name (body b1 : dict (field num)) :
  rename_keys body = ok b1 ->
  getitem "english_name" b1 = None ->
  convert_body times_pow10 body = fail (KeyError "english_name").
Proof.
  intros Hb1 HN. unfold convert_body. rewrite Hb1. cbn [and_then ok].
  rewrite ConvertBodyFacts.set_identity_eq, HN. reflexivity.
Qed.

(** X27: line 17 fails, with [TypeError], exactly when the body has an
    empty key; otherwise the keys it produces are pairwise distinct and are
    the [snake_case] of the keys of the body. *)
Theorem X27_rename_keys_keys (body : dict (field num)) :
  (In EmptyString (keys body) -> rename_keys body = fail TypeError)
  /\ (~ In EmptyString (keys body) -> exists b1, rename_keys body = ok b1)
  /\ (forall b1, rename_keys body = ok b1 ->
        NoDup (keys b1) /\
        forall k', In k' (keys b1) <->
                   exists k, In k (keys body) /\ snake_case k = ok k').
Proof.
  split; [|split].
  - intros Hin. apply ConvertBodyFacts.rename_keys_empty_key, Hin.
  - intros Hne. apply ConvertBodyFacts.rename_keys_total, Hne.
  - intros b1 Hb1. split; [apply (ConvertBodyFacts.rename_keys_keys_NoDup num body b1 Hb1)|].
    intros k'. rewrite (ConvertBodyFacts.rename_keys_keys num body [] b1 Hb1 k').
    simpl. tauto.
Qed.

End ConvertBodyProperties.

(** ** The numbers of [volume] and [mass] *)

Section ConvertBodyNumbers.

Import PlanetsApi PlanetsConvert PlanetsNumbers.

Variable pow10_float : number -> result PrimFloat.float.

Lemma times_pow10_int (v e : Z) (r : number) : (0 <= e)%Z ->
  times_pow10 pow10_float (Int v) (Int e) = ok r -> r = Int (v * 10 ^ e).
Proof.
  intros He. unfold times_pow10, pow10.
  destruct (Z.leb_spec 0 e) as [_|Hlt]; [|lia].
  cbn. intros Hr. injection Hr as <-. reflexivity.
Qed.

Lemma times_pow10_float (x : PrimFloat.float) (e : Z) (r : number) : (0 <= e)%Z ->
  times_pow10 pow10_float (Float x) (Int e) = ok r ->
  r = Float (PrimFloat.mul x (Binary64.of_Z (10 ^ e))).
Proof.
  intros He. unfold times_pow10, pow10.
  destruct (Z.leb_spec 0 e) as [_|Hlt]; [|lia].
  cbn. unfold float_of_int.
  destruct (PrimFloat.is_infinity (Binary64.of_Z (10 ^ e))); cbn; [discriminate|].
  intros Hr. injection Hr as <-. reflexivity.
Qed.

(** X22: in a body returned by [convert_body], [volume] and [mass] are
    [value * 10 ** exponent] of the tables the answer had under [vol] and
    [mass]: for an int exponent that is not negative, the exact int product
    when the value is an int, and the value times the float nearest to
    [10 ** exponent], rounded, when the value is a float. *)
Theorem X22_convert_body_volume_and_mass (body out : dict (field number)) :
  convert_body (times_pow10 pow10_float) body = ok out ->
  exists b1 tv tm vol mass,
    rename_keys body = ok b1 /\
    getitem "vol" b1 = Some (FTable tv) /\
    getitem "mass" b1 = Some (FTable tm) /\
    getitem "volume" out = Some (FNum vol) /\
    getitem "mass" out = Some (FNum mass) /\
    (forall v e, getitem "volValue" tv = Some (Int v) ->
                 getitem "volExponent" tv = Some (Int e) -> (0 <= e)%Z ->
                 vol = Int (v * 10 ^ e)) /\
    (forall x e, getitem "volValue" tv = Some (Float x) ->
                 getitem "volExponent" tv = Some (Int e) -> (0 <= e)%Z ->
                 vol = Float (PrimFloat.mul x (Binary64.of_Z (10 ^ e)))) /\
    (forall v e, getitem "massValue" tm = Some (Int v) ->
                 getitem "massExponent" tm = Some (Int e) -> (0 <= e)%Z ->
                 mass = Int (v * 10 ^ e)) /\
    (forall x e, getitem "massValue" tm = Some (Float x) ->
                 getitem "massExponent" tm = Some (Int e) -> (0 <= e)%Z ->
                 mass = Float (PrimFloat.mul x (Binary64.of_Z (10 ^ e)))).
Proof.
  intros Hc.
  destruct (ConvertBodyFacts.convert_body_spec number (times_pow10 pow10_float) body out Hc)
    as (b1 & N & id & T & bt & tv & vv & ve & vol & tm & mv & me & mass & H).
  destruct H as (Hb1 & _ & _ & _ & _ & Htv & Hvv & Hve & Hvol
                 & Htm & Hmv & Hme & Hmass & _ & _ & Hg).
  destruct tv as [s|x|tv|]; try discriminate.
  destruct tm as [s|x|tm|]; try discriminate.
  unfold table_subscript, subscript in Hvv, Hve, Hmv, Hme.
  destruct (getitem "volValue" tv) as [vv'|] eqn:Evv; [|discriminate].
  destruct (getitem "volExponent" tv) as [ve'|] eqn:Eve; [|discriminate].
  destruct (getitem "massValue" tm) as [mv'|] eqn:Emv; [|discriminate].
  destruct (getitem "massExponent" tm) as [me'|] eqn:Eme; [|discriminate].
  injection Hvv as ->. injection Hve as ->. injection Hmv as ->. injection Hme as ->.
  exists b1, tv, tm, vol, mass.
  split; [exact Hb1|]. split; [exact Htv|]. split; [exact Htm|].
  split; [rewrite Hg; reflexivity|]. split; [rewrite Hg; reflexivity|].
  split; [|split; [|split]].
  - intros v e Hv He Hle. rewrite Evv in Hv. rewrite Eve in He.
    injection Hv as ->. injection He as ->.
    exact (times_pow10_int v e vol Hle Hvol).
  - intros x e Hv He Hle. rewrite Evv in Hv. rewrite Eve in He.
    injection Hv as ->. injection He as ->.
    exact (times_pow10_float x e vol Hle Hvol).
  - intros v e Hv He Hle. rewrite Emv in Hv. rewrite Eme in He.
    injection Hv as ->. injection He as ->.
    exact (times_pow10_int v e mass Hle Hmass).
  - intros x e Hv He Hle. rewrite Emv in Hv. rewrite Eme in He.
    injection Hv as ->. injection He as ->.
    exact (times_pow10_float x e mass Hle Hmass).
Qed.

End ConvertBodyNumbers.

(** ** Instances of the properties above *)

Lemma X11_witness :
  PlanetsConvert.snake_case EmptyString = PlanetsConvert.fail PlanetsConvert.TypeError.
Proof. exact (proj2 (X11_snake_case_fails_only_on_empty EmptyString) eq_refl). Defined.

Lemma X18_witness :
  let result :=
    PlanetsApi.merge_and_report (fun s : string => s)
      [("ceres", [("name", "Ceres"); ("parent", "sun")])] [] in
  In "WARNING: Ceres has not been designated a colour" (snd result)
  /\ exists m name,
       In m (fst result) /\ PlanetsApi.getitem "name" m = Some name /\
       PlanetsApi.getitem "colour" m = None.
Proof.
  intros result.
  assert (In "WARNING: Ceres has not been designated a colour" (snd result)) as Hin
    by (left; reflexivity).
  split; [exact Hin|].
  destruct (proj1 (X18_only_warnings_of_named_bodies string (fun s : string => s)
                     [("ceres", [("name", "Ceres"); ("parent", "sun")])] [])
              _ Hin) as [m [name [Hm [Hn [[_ Hc]|[Hl _]]]]]].
  - exists m, name. repeat split; assumption.
  - destruct Hm as [<-|[]]. vm_compute in Hn. injection Hn as <-.
    vm_compute in Hl. discriminate.
Defined.

Lemma X19_witness :
  let tp := fun v e : Z => PlanetsConvert.ok (v * 10 ^ e)%Z in
  let body :=
    [("englishName", PlanetsConvert.FStr "Earth");
     ("bodyType", PlanetsConvert.FStr "Planet");
     ("vol", PlanetsConvert.FTable [("volValue", 108%Z); ("volExponent", 10%Z)]);
     ("mass", PlanetsConvert.FTable [("massValue", 597%Z); ("massExponent", 22%Z)])] in
  exists out,
    PlanetsConvert.convert_body tp body = PlanetsConvert.ok out
    /\ PlanetsApi.getitem "vol" out = None.
Proof.
  intros tp body.
  destruct (PlanetsConvert.convert_body tp body) as [e|out] eqn:H;
    [vm_compute in H; discriminate|].
  exists out. split; [reflexivity|].
  exact (proj2 (proj2 (proj2 (X19_convert_body_key_layout Z tp body out H)))).
Defined.

Lemma X20_witness :
  let tp := fun v e : Z => PlanetsConvert.ok (v * 10 ^ e)%Z in
  let body :=
    [("englishName", PlanetsConvert.FStr "Earth");
     ("bodyType", PlanetsConvert.FStr "Planet");
     ("vol", PlanetsConvert.FTable [("volValue", 108%Z); ("volExponent", 10%Z)]);
     ("mass", PlanetsConvert.FTable [("massValue", 597%Z); ("massExponent", 22%Z)])] in
  exists out N id,
    PlanetsConvert.convert_body tp body = PlanetsConvert.ok out
    /\ PlanetsApi.getitem "name" out = Some N
    /\ PlanetsConvert.snake_case_field N = PlanetsConvert.ok id
    /\ PlanetsApi.getitem "identifier" out = Some (PlanetsConvert.FStr id).
Proof.
  intros tp body.
  destruct (PlanetsConvert.convert_body tp body) as [e|out] eqn:H;
    [vm_compute in H; discriminate|].
  destruct (X20_convert_body_identifier_of_name Z tp body out H)
    as (b1 & N & id & _ & _ & Hid & Hn & Hi).
  exists out, N, id. repeat split; assumption.
Defined.

Lemma X21_witness :
  let tp := fun v e : Z => PlanetsConvert.ok (v * 10 ^ e)%Z in
  let body :=
    [("englishName", PlanetsConvert.FStr "Ceres");
     ("bodyType", PlanetsConvert.FStr "Dwarf Planet");
     ("vol", PlanetsConvert.FTable [("volValue", 4%Z); ("volExponent", 8%Z)]);
     ("mass", PlanetsConvert.FTable [("massValue", 9%Z); ("massExponent", 20%Z)])] in
  exists out id bt,
    PlanetsConvert.convert_body tp body = PlanetsConvert.ok out
    /\ PlanetsApi.getitem "identifier" out = Some (PlanetsConvert.FStr id)
    /\ PlanetsApi.getitem "body_type" out = Some (PlanetsConvert.FStr bt).
Proof.
  intros tp body.
  destruct (PlanetsConvert.convert_body tp body) as [e|out] eqn:H;
    [vm_compute in H; discriminate|].
  destruct (X21_convert_body_parent_rule Z tp body out H)
    as (b1 & id & T & bt & _ & Hi & _ & _ & Hb & _).
  exists out, id, bt. repeat split; assumption.
Defined.

Section ConvertBodyNumbersInstance.

Import PrimFloat.

Lemma X22_witness :
  let pow10_float := fun _ : PlanetsNumbers.number =>
                       PlanetsConvert.fail PlanetsConvert.OverflowError in
  let body :=
    [("englishName", PlanetsConvert.FStr "Earth");
     ("bodyType", PlanetsConvert.FStr "Planet");
     ("vol", PlanetsConvert.FTable
               [("volValue", PlanetsNumbers.Float 108.25%float);
                ("volExponent", PlanetsNumbers.Int 10)]);
     ("mass", PlanetsConvert.FTable
                [("massValue", PlanetsNumbers.Int 597);
                 ("massExponent", PlanetsNumbers.Int 22)])] in
  exists out,
    PlanetsConvert.convert_body (PlanetsNumbers.times_pow10 pow10_float) body
    = PlanetsConvert.ok out
    /\ PlanetsApi.getitem "volume" out
       = Some (PlanetsConvert.FNum (PlanetsNumbers.Float 1082500000000%float))
    /\ PlanetsApi.getitem "mass" out
       = Some (PlanetsConvert.FNum (PlanetsNumbers.Int (597 * 10 ^ 22))).
Proof.
  intros pow10_float body.
  destruct (PlanetsConvert.convert_body (PlanetsNumbers.times_pow10 pow10_float) body)
    as [e|out] eqn:H; [vm_compute in H; discriminate|].
  destruct (X22_convert_body_volume_and_mass pow10_float body out H)
    as (b1 & tv & tm & vol & mass & Hb1 & Htv & Htm & Hv & Hm & _ & Hvf & Hmi & _).
  vm_compute in Hb1. injection Hb1 as <-.
  vm_compute in Htv. injection Htv as <-.
  vm_compute in Htm. injection Htm as <-.
  exists out. split; [reflexivity|]. split.
  - rewrite Hv. rewrite (Hvf 108.25%float 10%Z eq_refl eq_refl ltac:(lia)).
    vm_compute. reflexivity.
  - rewrite Hm. rewrite (Hmi 597%Z 22%Z eq_refl eq_refl ltac:(lia)). reflexivity.
Defined.

End ConvertBodyNumbersInstance.

Lemma X23_witness :
  let tp := fun v e : Z => PlanetsConvert.ok (v * 10 ^ e)%Z in
  let body :=
    [("englishName", PlanetsConvert.FStr "Earth");
     ("bodyType", PlanetsConvert.FStr "Planet");
     ("meanRadius", PlanetsConvert.FNum 6371%Z);
     ("vol", PlanetsConvert.FTable [("volValue", 108%Z); ("volExponent", 10%Z)]);
     ("mass", PlanetsConvert.FTable [("massValue", 597%Z); ("massExponent", 22%Z)])] in
  exists out b1,
    PlanetsConvert.convert_body tp body = PlanetsConvert.ok out
    /\ PlanetsApi.getitem "mean_radius" out = PlanetsApi.getitem "mean_radius" b1.
Proof.
  intros tp body.
  destruct (PlanetsConvert.convert_body tp body) as [e|out] eqn:H;
    [vm_compute in H; discriminate|].
  destruct (X23_convert_body_other_fields Z tp body out H) as (b1 & _ & Hk).
  exists out, b1. split; [reflexivity|].
  apply Hk. simpl. intuition discriminate.
Defined.

Lemma X24_witness :
  let tp := fun v e : Z => PlanetsConvert.ok (v * 10 ^ e)%Z in
  PlanetsConvert.convert_body tp
    [("englishName", PlanetsConvert.FStr "Sedna");
     ("bodyType", PlanetsConvert.FStr "Dwarf Planet");
     ("vol", PlanetsConvert.FTable [("volValue", 1%Z); ("volExponent", 9%Z)]);
     ("mass", PlanetsConvert.FNull)]
  = PlanetsConvert.fail PlanetsConvert.TypeError.
Proof.
  intros tp.
  apply (X24_convert_body_mass_not_a_table Z tp _
           [("english_name", PlanetsConvert.FStr "Sedna");
            ("body_type", PlanetsConvert.FStr "Dwarf Planet");
            ("vol", PlanetsConvert.FTable [("volValue", 1%Z); ("volExponent", 9%Z)]);
            ("mass", PlanetsConvert.FNull)]
           (PlanetsConvert.FStr "Sedna") (PlanetsConvert.FStr "Dwarf Planet")
           (PlanetsConvert.FTable [("volValue", 1%Z); ("volExponent", 9%Z)])
           PlanetsConvert.FNull "sedna" "dwarf_planet" 1%Z 9%Z 1000000000%Z);
    try reflexivity.
  intros t. discriminate.
Defined.

Lemma X25_witness :
  let tp := fun v e : Z => PlanetsConvert.ok (v * 10 ^ e)%Z in
  exists out,
    PlanetsConvert.convert_body tp
      [("englishName", PlanetsConvert.FStr "Sun");
       ("bodyType", PlanetsConvert.FStr "Star");
       ("vol", PlanetsConvert.FTable [("volValue", 1%Z); ("volExponent", 9%Z)]);
       ("mass", PlanetsConvert.FTable [("massValue", 2%Z); ("massExponent", 30%Z)])]
    = PlanetsConvert.ok out.
Proof.
  intros tp.
  apply (X25_convert_body_succeeds Z tp _
           [("english_name", PlanetsConvert.FStr "Sun");
            ("body_type", PlanetsConvert.FStr "Star");
            ("vol", PlanetsConvert.FTable [("volValue", 1%Z); ("volExponent", 9%Z)]);
            ("mass", PlanetsConvert.FTable [("massValue", 2%Z); ("massExponent", 30%Z)])]
           "S"%char "S"%char "un" "tar"
           [("volValue", 1%Z); ("volExponent", 9%Z)]
           [("massValue", 2%Z); ("massExponent", 30%Z)]
           1%Z 9%Z 1000000000%Z 2%Z 30%Z (2 * 10 ^ 30)%Z);
    reflexivity.
Defined.

Lemma X26_witness :
  let tp := fun v e : Z => PlanetsConvert.ok (v * 10 ^ e)%Z in
  PlanetsConvert.convert_body tp [("bodyType", PlanetsConvert.FStr "Planet")]
  = PlanetsConvert.fail (PlanetsConvert.KeyError "english_name").
Proof.
  intros tp.
  apply (X26_convert_body_missing_name Z tp _
           [("body_type", PlanetsConvert.FStr "Planet")]); reflexivity.
Defined.

Lemma X27_witness :
  PlanetsConvert.rename_keys
    [("englishName", PlanetsConvert.FNum 1%Z); ("", PlanetsConvert.FNum 2%Z)]
  = PlanetsConvert.fail PlanetsConvert.TypeError.
Proof.
  apply (proj1 (X27_rename_keys_keys Z
                  [("englishName", PlanetsConvert.FNum 1%Z); ("", PlanetsConvert.FNum 2%Z)])).
  right. left. reflexivity.
Defined.
